(** * obd-parser: the stream parser of [src/lib/parser.js]

    A shallow embedding of the OBD-II response parser and the properties of
    its framing, splitting and decoding steps.

    JavaScript strings are sequences of UTF-16 code units; they are modelled
    as lists of code units ([N]).  The runtime primitives the parser calls
    ([String.prototype.replace], [split], [trim], [match], [indexOf],
    [Array.prototype.slice], [join], [Buffer.prototype.toString]) are
    modelled in [Module JS], each for the argument shapes the parser uses. *)

From Stdlib Require Import String Ascii.
From Stdlib Require Import List NArith ZArith Lia Bool Arith.
Import ListNotations.

Set Implicit Arguments.

(* ================================================================== *)
(** ** The JavaScript primitives used by the parser *)
(* ================================================================== *)

Module JS.

(** A UTF-16 code unit. *)
Definition char := N.

(** A JavaScript string. *)
Definition jsstring := list char.

(** A string literal of the source (ASCII). *)
Definition lit (s : string) : jsstring :=
  map N_of_ascii (list_ascii_of_string s).
Arguments lit s%_string.

Definition LF : char := 10%N.
Definition CR : char := 13%N.
Definition SPACE : char := 32%N.
Definition BACKSLASH : char := 92%N.
Definition LOWER_R : char := 114%N.
Definition REPLACEMENT : char := 65533%N.

(** [a === b] on strings. *)
Fixpoint str_eqb (a b : jsstring) : bool :=
  match a, b with
  | [], [] => true
  | x :: a', y :: b' => N.eqb x y && str_eqb a' b'
  | _, _ => false
  end.

(** Truthiness of a string: every string but the empty one. *)
Definition truthy (s : jsstring) : bool :=
  match s with [] => false | _ :: _ => true end.

(** [s] starts with [pat]. *)
Fixpoint starts_with (pat s : jsstring) : bool :=
  match pat, s with
  | [], _ => true
  | p :: pat', c :: s' => N.eqb p c && starts_with pat' s'
  | _ :: _, [] => false
  end.

(** [s.indexOf(pat)]: the first position where [pat] occurs; [None] is -1. *)
Fixpoint indexOf (s pat : jsstring) : option nat :=
  if starts_with pat s then Some 0
  else match s with
       | [] => None
       | _ :: t => option_map S (indexOf t pat)
       end.

(** [s.replace(pat, rep)] with a string pattern: only the first occurrence
    is replaced ([rep] holds no dollar pattern; the parser passes the empty
    string). *)
Fixpoint replace_str (pat rep s : jsstring) : jsstring :=
  if starts_with pat s then rep ++ skipn (length pat) s
  else match s with
       | [] => []
       | c :: t => c :: replace_str pat rep t
       end.

(** [s.replace(/c/g, rep)] for a regular expression that is one literal
    character. *)
Fixpoint replace_char_g (c : char) (rep s : jsstring) : jsstring :=
  match s with
  | [] => []
  | x :: t => if N.eqb x c then rep ++ replace_char_g c rep t
              else x :: replace_char_g c rep t
  end.

(** [s.replace(/ab/g, rep)] for a regular expression that is two literal
    characters: matches are found left to right and do not overlap. *)
Fixpoint replace_pair_g (a b : char) (rep s : jsstring) : jsstring :=
  match s with
  | [] => []
  | x :: t =>
      match t with
      | y :: t' =>
          if N.eqb x a && N.eqb y b then rep ++ replace_pair_g a b rep t'
          else x :: replace_pair_g a b rep t
      | [] => [x]
      end
  end.

(** [s.split(/c/g)] for a one-character regular expression: the pieces
    between the separators, empty pieces included; the empty string gives
    one empty piece. *)
Fixpoint split_char (c : char) (s : jsstring) : list jsstring :=
  match s with
  | [] => [[]]
  | x :: t =>
      if N.eqb x c then [] :: split_char c t
      else match split_char c t with
           | h :: r => (x :: h) :: r
           | [] => [[x]]
           end
  end.

(** White space and line terminators, as [String.prototype.trim] strips
    them: TAB, LF, VT, FF, CR, SPACE, NBSP, U+1680, U+2000 to U+200A,
    U+2028, U+2029, U+202F, U+205F, U+3000 and U+FEFF. *)
Definition is_trim_space (c : char) : bool :=
  (N.leb 9 c && N.leb c 13) || N.eqb c 32 || N.eqb c 160 || N.eqb c 5760
  || (N.leb 8192 c && N.leb c 8202) || N.eqb c 8232 || N.eqb c 8233
  || N.eqb c 8239 || N.eqb c 8287 || N.eqb c 12288 || N.eqb c 65279.

Fixpoint trim_start (s : jsstring) : jsstring :=
  match s with
  | [] => []
  | c :: t => if is_trim_space c then trim_start t else s
  end.

Definition trim_end (s : jsstring) : jsstring := rev (trim_start (rev s)).

(** [s.trim()]. *)
Definition trim (s : jsstring) : jsstring := trim_end (trim_start s).

(** The character class [[0-9A-F]]. *)
Definition class_0_9A_F (c : char) : bool :=
  (N.leb 48 c && N.leb c 57) || (N.leb 65 c && N.leb c 70).

(** The longest prefix of [s] whose characters are all in the class [p],
    and what follows it: what a greedy [[...]+] consumes. *)
Fixpoint greedy_run (p : char -> bool) (s : jsstring) : jsstring * jsstring :=
  match s with
  | [] => ([], [])
  | c :: t => if p c then let '(run, rest) := greedy_run p t in (c :: run, rest)
              else ([], s)
  end.

(** [s.match(/^[p]+$/)] is not null: from the start of the input the
    greedy run is not empty and the end of the input follows it (a shorter
    run leaves more input before the end, so backtracking finds nothing
    else). *)
Definition test_anchored_plus (p : char -> bool) (s : jsstring) : bool :=
  let '(run, rest) := greedy_run p s in truthy run && negb (truthy rest).

(** What [.] matches: any character but the line terminators LF, CR,
    U+2028 and U+2029. *)
Definition dot (c : char) : bool :=
  negb (N.eqb c 10 || N.eqb c 13 || N.eqb c 8232 || N.eqb c 8233).

(** The matches of [/.{1,2}/g] in [s], left to right: at a character [.]
    matches, two characters are taken when the next one matches too, else
    one; a character [.] does not match is stepped over. *)
Fixpoint matches_dot_1_2 (s : jsstring) : list jsstring :=
  match s with
  | [] => []
  | a :: t =>
      if dot a then
        match t with
        | b :: t' => if dot b then [a; b] :: matches_dot_1_2 t'
                     else [a] :: matches_dot_1_2 t
        | [] => [[a]]
        end
      else matches_dot_1_2 t
  end.

(** [s.match(/.{1,2}/g)]: the array of all matches, or null ([None]) when
    there is none. *)
Definition match_dot_1_2_g (s : jsstring) : option (list jsstring) :=
  match matches_dot_1_2 s with
  | [] => None
  | ms => Some ms
  end.

(** [arr.join(sep)]. *)
Fixpoint join (sep : jsstring) (arr : list jsstring) : jsstring :=
  match arr with
  | [] => []
  | [x] => x
  | x :: rest => x ++ sep ++ join sep rest
  end.

(** [arr.slice(start, stop)]: a negative index counts from the end, and
    both indices are clamped to the array. *)
Definition slice {A} (start stop : Z) (arr : list A) : list A :=
  let len := Z.of_nat (length arr) in
  let k := if (start <? 0)%Z then Z.max (len + start) 0 else Z.min start len in
  let final := if (stop <? 0)%Z then Z.max (len + stop) 0 else Z.min stop len in
  firstn (Z.to_nat (final - k)) (skipn (Z.to_nat k) arr).

(** *** [Buffer.prototype.toString('utf8')]

    The bytes of a [Buffer] are decoded as UTF-8 the way the WHATWG
    decoder does: a byte that cannot start or continue a sequence gives
    U+FFFD, a byte that breaks a pending sequence is read again as the
    start of the next one, and a sequence still pending at the end of the
    buffer gives U+FFFD.  A code point above U+FFFF becomes a surrogate
    pair. *)

Definition byte := N.

Record utf8_state := {
  code_point : N;
  bytes_needed : nat;
  lower_boundary : N;
  upper_boundary : N
}.

Definition utf8_init : utf8_state :=
  {| code_point := 0; bytes_needed := 0;
     lower_boundary := 128; upper_boundary := 191 |}.

(** A byte read while no sequence is pending. *)
Definition utf8_lead (b : byte) : list N * utf8_state :=
  if N.leb b 127 then ([b], utf8_init)
  else if N.leb 194 b && N.leb b 223 then
    ([], {| code_point := N.land b 31; bytes_needed := 1;
            lower_boundary := 128; upper_boundary := 191 |})
  else if N.leb 224 b && N.leb b 239 then
    ([], {| code_point := N.land b 15; bytes_needed := 2;
            lower_boundary := if N.eqb b 224 then 160 else 128;
            upper_boundary := if N.eqb b 237 then 159 else 191 |})
  else if N.leb 240 b && N.leb b 244 then
    ([], {| code_point := N.land b 7; bytes_needed := 3;
            lower_boundary := if N.eqb b 240 then 144 else 128;
            upper_boundary := if N.eqb b 244 then 143 else 191 |})
  else ([REPLACEMENT], utf8_init).

(** One byte: the code points it completes and the next state. *)
Definition utf8_step (st : utf8_state) (b : byte) : list N * utf8_state :=
  match bytes_needed st with
  | O => utf8_lead b
  | S k =>
      if N.leb (lower_boundary st) b && N.leb b (upper_boundary st) then
        let cp := N.lor (N.shiftl (code_point st) 6) (N.land b 63) in
        match k with
        | O => ([cp], utf8_init)
        | S _ => ([], {| code_point := cp; bytes_needed := k;
                         lower_boundary := 128; upper_boundary := 191 |})
        end
      else
        let '(out, st') := utf8_lead b in (REPLACEMENT :: out, st')
  end.

Fixpoint utf8_decode (st : utf8_state) (bytes : list byte) : list N :=
  match bytes with
  | [] => match bytes_needed st with O => [] | S _ => [REPLACEMENT] end
  | b :: t => let '(out, st') := utf8_step st b in out ++ utf8_decode st' t
  end.

(** The decoder's state after [bytes]. *)
Fixpoint utf8_final (st : utf8_state) (bytes : list byte) : utf8_state :=
  match bytes with
  | [] => st
  | b :: t => utf8_final (snd (utf8_step st b)) t
  end.

(** The UTF-16 code units of a code point. *)
Definition utf16_units (cp : N) : jsstring :=
  if N.ltb cp 65536 then [cp]
  else let c := N.sub cp 65536 in
       [N.add 55296 (N.shiftr c 10); N.add 56320 (N.land c 1023)].

Definition Buffer_toString_utf8 (bytes : list byte) : jsstring :=
  flat_map utf16_units (utf8_decode utf8_init bytes).

(** The bytes of an ASCII literal of the tests. *)
Definition bytes_of (s : string) : list byte :=
  map N_of_ascii (list_ascii_of_string s).
Arguments bytes_of s%_string.

End JS.

Import JS.

(* ================================================================== *)
(** ** The collaborators of the parser *)
(* ================================================================== *)

(** A [VError], by the call that builds it; the text the [verror] package
    formats from these arguments is not modelled. *)
Inductive VError :=
| (** [new VError('Unable to parse bytes for output "%s"; mode "%s" not
      supported', byteGroups.join(' '), byteGroups[0])] *)
  ModeNotSupported (output : jsstring) (mode : option jsstring)
| (** [new VError('no converter was found for pid %s', byteGroups[1])];
      the pid is [None] when [byteGroups[1]] is undefined. *)
  NoConverter (pid : option jsstring)
| (** a [VError] made elsewhere, by a converter *)
  OtherVError (message : jsstring).

(** What the parser's own code can throw: reading a property of null. *)
Inductive exn := TypeError.

Inductive completion (A : Type) :=
| Normal (a : A)
| Throw (e : exn).
Arguments Normal {A} a.
Arguments Throw {A} e.

Section Parser.

(** [constants.OBD_OUTPUT_DELIMETER] and
    [constants.OBD_OUTPUT_MESSAGE_TYPES.MODE_01]: [constants.js] is not
    among the sources, the parser is modelled for any value of the two. *)
Variable OBD_OUTPUT_DELIMETER : jsstring.
Variable MODE_01 : jsstring.

(** The values converters return that are neither [VError] instances nor
    undefined or null. *)
Variable JsValue : Type.

(** What a converter returns, as [parsed instanceof VError] tells it
    apart: a [VError], or any other value, where [Value None] stands for
    undefined and for null. *)
Inductive converted :=
| Value (v : option JsValue)
| Failure (e : VError).

(** An entry of the pid table, as the parser uses it: [byteCount], a
    number of bytes, and [convertBytes], which [apply] calls with the
    elements of an array as its arguments. *)
Record PidInfo := {
  byteCount : nat;
  convertBytes : list jsstring -> converted
}.

(** [pids.getBy('pid', x)]: the table entry, or a falsy value.  The
    argument is [None] when [x] is undefined.  The lookup and the entries
    are not among the sources: the parser is modelled for any table. *)
Variable pids_getBy_pid : option jsstring -> option PidInfo.

(** [Date.now()]: the value of the n-th reading of the clock. *)
Variable Date_now : nat -> Z.

Record ParseResult := {
  ts : Z;
  value : option JsValue;                (* [None] is null *)
  raw : jsstring;
  byteGroups : option (list jsstring);   (* [None] is null *)
  error : option VError                  (* [None]: no such key *)
}.

(** What the stream emits. *)
Inductive event :=
| line_break                (* [emit('line-break')] *)
| data_event (r : ParseResult).   (* [emit('data', r)] *)

(** The parser object ([this._buffer]) and the clock. *)
Record OBDStreamParser := {
  _buffer : jsstring;
  clock : nat
}.

(** [new OBDStreamParser()] *)
Definition new_OBDStreamParser : OBDStreamParser :=
  {| _buffer := []; clock := 0 |}.

(** Code that reads and writes the parser, emits events and may throw. *)
Definition M (A : Type) : Type :=
  OBDStreamParser -> completion A * OBDStreamParser * list event.

Definition ret {A} (a : A) : M A := fun this => (Normal a, this, []).

Definition bind {A B} (m : M A) (f : A -> M B) : M B :=
  fun this =>
    match m this with
    | (Normal a, this1, out1) =>
        let '(c, this2, out2) := f a this1 in (c, this2, out1 ++ out2)
    | (Throw e, this1, out1) => (Throw e, this1, out1)
    end.

Definition throw {A} (e : exn) : M A := fun this => (Throw e, this, []).

Definition emit (e : event) : M unit := fun this => (Normal tt, this, [e]).

Definition get_buffer : M jsstring :=
  fun this => (Normal (_buffer this), this, []).

Definition set_buffer (b : jsstring) : M unit :=
  fun this => (Normal tt, {| _buffer := b; clock := clock this |}, []).

Definition now : M Z :=
  fun this => (Normal (Date_now (clock this)),
               {| _buffer := _buffer this; clock := S (clock this) |}, []).

(** Reading a property of [o], which throws when [o] is null. *)
Definition deref {A} (o : option A) : M A :=
  match o with
  | Some a => ret a
  | None => throw TypeError
  end.

Notation "x <- m ;; k" := (bind m (fun x => k))
  (at level 61, m at next level, right associativity).
Notation "m ;;; k" := (bind m (fun _ => k))
  (at level 61, right associativity).

(** [_.each(arr, f)] *)
Fixpoint each {A} (arr : list A) (f : A -> M unit) : M unit :=
  match arr with
  | [] => ret tt
  | x :: rest => f x ;;; each rest f
  end.

(** *** [hasPrompt] *)
Definition hasPrompt (data : jsstring) : bool :=
  match indexOf data OBD_OUTPUT_DELIMETER with
  | Some _ => true
  | None => false
  end.

(** *** [extractOutputStrings] *)
Definition extractOutputStrings (buffer : jsstring) : list jsstring :=
  let cmds :=
    split_char CR
      (replace_pair_g BACKSLASH LOWER_R [CR]
         (replace_char_g LF [] buffer)) in
  let cmds :=
    map (fun c =>
           trim (replace_char_g SPACE []
                   (replace_str OBD_OUTPUT_DELIMETER [] c)))
        cmds in
  let cmds := filter truthy cmds in
  cmds.

(** *** [isHex] *)
Definition isHex (str : jsstring) : bool :=
  test_anchored_plus class_0_9A_F str.

(** *** [getByteGroupings] *)
Definition getByteGroupings (str : jsstring) : option (list jsstring) :=
  match_dot_1_2_g (replace_char_g SPACE [] str).

(** *** [parseRealTime] *)
Definition parseRealTime (byteGroups : list jsstring) : converted :=
  let pidInfo := pids_getBy_pid (nth_error byteGroups 1) in
  match pidInfo with
  | Some pidInfo =>
      convertBytes pidInfo
        (slice 2 (Z.of_nat (byteCount pidInfo)) byteGroups)
  | None => Failure (NoConverter (nth_error byteGroups 1))
  end.

(** *** [parseObdString]

    [_.merge(ret, {error: e})] sets the [error] key of [ret].
    [_.merge(ret, {value: v})] sets the [value] key, but for an undefined
    [v], which [merge] skips, and a null [v], which is what [ret] holds
    already: the value stays null then, and no error is set. *)
Definition parseObdString (str : jsstring) : M ParseResult :=
  let byteGroups := getByteGroupings str in
  t <- now ;;
  let ret_ := {| ts := t; value := None; raw := str;
                 byteGroups := byteGroups; error := None |} in
  if negb (isHex str) then ret ret_
  else
    groups <- deref byteGroups ;;
    if match nth_error groups 0 with
       | Some g => str_eqb g MODE_01
       | None => false
       end
    then
      match parseRealTime groups with
      | Failure e =>
          ret {| ts := t; value := None; raw := str;
                 byteGroups := byteGroups; error := Some e |}
      | Value v =>
          ret {| ts := t; value := v; raw := str;
                 byteGroups := byteGroups; error := None |}
      end
    else
      ret {| ts := t; value := None; raw := str;
             byteGroups := byteGroups;
             error := Some (ModeNotSupported (join [SPACE] groups)
                                             (nth_error groups 0)) |}.

(** The function [_transform] passes to [_.each]:
    [function (c) { this.emit('data', parseObdString(c)); }] *)
Definition emit_parsed (c : jsstring) : M unit :=
  r <- parseObdString c ;; emit (data_event r).

(** *** [OBDStreamParser.prototype._flush] *)
Definition _flush : M unit := set_buffer [].

(** *** [OBDStreamParser.prototype._transform]

    [data] is the chunk, a [Buffer]; the [done] callback and the log
    calls are left out. *)
Definition _transform (data : list byte) : M unit :=
  let data := Buffer_toString_utf8 data in
  buf <- get_buffer ;;
  set_buffer (buf ++ data) ;;;
  buf <- get_buffer ;;
  if hasPrompt buf then
    emit line_break ;;;
    buf <- get_buffer ;;
    each (extractOutputStrings buf) emit_parsed ;;;
    _flush
  else ret tt.

(** Successive writes to the stream, one chunk each. *)
Fixpoint write_all (chunks : list (list byte)) : M unit :=
  match chunks with
  | [] => ret tt
  | chunk :: rest => _transform chunk ;;; write_all rest
  end.

(** The results among the events, in order. *)
Fixpoint results (out : list event) : list ParseResult :=
  match out with
  | [] => []
  | line_break :: rest => results rest
  | data_event r :: rest => r :: results rest
  end.

(** A result without its timestamp. *)
Definition untimed (r : ParseResult)
  : jsstring * option (list jsstring) * option JsValue * option VError :=
  (raw r, byteGroups r, value r, error r).

End Parser.

Arguments Failure {JsValue} e.
Arguments line_break {JsValue}.

(** What a run of parser code leaves: its completion, the parser object
    and the events emitted. *)
Definition outcome {A S E} (r : completion A * S * list E) : completion A :=
  fst (fst r).
Definition after {A S E} (r : completion A * S * list E) : S := snd (fst r).
Definition emitted {A S E} (r : completion A * S * list E) : list E := snd r.

(** ** The constants *)

Module constants.

(** Modelled from the spec: [constants.js] is not among the sources.  The
    prompt delimiter is the single terminator character that ends the
    spec's example inputs. *)
Definition OBD_OUTPUT_DELIMETER : jsstring := lit ">".

(** Modelled from the spec: [constants.js] is not among the sources.  The
    response-mode marker is the two-digit code the spec's example
    responses start with. *)
Definition MODE_01 : jsstring := lit "41".

End constants.

(* ================================================================== *)
(** ** The vocabulary of the specification *)
(* ================================================================== *)

(** An uppercase hexadecimal digit. *)
Definition upper_hex_digit (c : char) : Prop :=
  In c (lit "0123456789ABCDEF").

(** A line terminator of JavaScript: LF, CR, U+2028 or U+2029. *)
Definition line_terminator (c : char) : Prop :=
  In c [10; 13; 8232; 8233]%N.

(** [s] without its space characters. *)
Definition despaced (s : jsstring) : jsstring :=
  filter (fun c => negb (N.eqb c SPACE)) s.

(** [s] cut into runs of two characters from the left, the last run one
    character long when the length is odd. *)
Fixpoint runs_of_2 (s : jsstring) : list jsstring :=
  match s with
  | [] => []
  | [a] => [[a]]
  | a :: b :: t => [a; b] :: runs_of_2 t
  end.

(** [pat] occurs in [s] at position [i]. *)
Definition occurs_at (pat s : jsstring) (i : nat) : Prop :=
  exists pre post, s = pre ++ pat ++ post /\ length pre = i.

Definition contains (pat s : jsstring) : Prop := exists i, occurs_at pat s i.

(** The only occurrence of [pat] in [s] is the one that ends [s]. *)
Definition only_at_end (pat s : jsstring) : Prop :=
  (exists body, s = body ++ pat) /\
  (forall i, occurs_at pat s i -> i + length pat = length s).

(** No multi-byte UTF-8 sequence is left pending at the end of [chunk]. *)
Definition utf8_complete (chunk : list byte) : Prop :=
  bytes_needed (utf8_final utf8_init chunk) = 0.

(** [s] without its line feeds. *)
Definition without_line_feeds (s : jsstring) : jsstring :=
  filter (fun c => negb (N.eqb c LF)) s.

(** The normalisation of one segment of a frame, in the words of the
    specification: the delimiter token goes (its first occurrence), then
    the spaces, then the white space at both ends. *)
Definition normalised (delimiter segment : jsstring) : jsstring :=
  trim (despaced (replace_str delimiter [] segment)).

(** What separates two lines of a frame: a carriage return, or the two
    characters backslash and r. *)
Inductive separator := carriage_return | escaped_carriage_return.

Definition separator_text (s : separator) : jsstring :=
  match s with
  | carriage_return => [CR]
  | escaped_carriage_return => [BACKSLASH; LOWER_R]
  end.

(** The frame made of a first line and of further lines, each after its
    separator. *)
Definition frame_of (first : jsstring) (more : list (separator * jsstring))
  : jsstring :=
  first ++ flat_map (fun sl => separator_text (fst sl) ++ snd sl) more.

(** The lines of that frame. *)
Definition lines_of (first : jsstring) (more : list (separator * jsstring))
  : list jsstring :=
  first :: map snd more.

(** A line holds no carriage return, no line feed and no backslash. *)
Definition plain_line (l : jsstring) : Prop :=
  ~ In CR l /\ ~ In LF l /\ ~ In BACKSLASH l.

(** ** Sample collaborators and inputs *)

Module samples.

(** A pid table without entries. *)
Definition no_pids : option jsstring -> option (PidInfo Z) :=
  fun _ => None.

(** A pid table with the one entry 0C, whose byte count is 4 and whose
    converter returns the two arguments it is called with and fails on
    any other number of arguments. *)
Definition one_pid : option jsstring -> option (PidInfo (list jsstring)) :=
  fun pid =>
    match pid with
    | Some p =>
        if str_eqb p (lit "0C")
        then Some {| byteCount := 4;
                     convertBytes := fun args =>
                       match args with
                       | [_; _] => Value (Some args)
                       | _ => Failure (OtherVError (lit "bad payload"))
                       end |}
        else None
    | None => None
    end.

(** A clock that ticks once per reading. *)
Definition ticking : nat -> Z := Z.of_nat.

(** The two bytes of U+00E9 and the prompt, cut inside the character. *)
Definition cut_character : list (list byte) := [[195]; [169; 62]]%N.

(** An output of two responses, with a stray line feed and an escaped
    carriage return. *)
Definition two_responses : jsstring :=
  lit "410C1B56" ++ [LF; CR] ++ lit "41 05 7E" ++ [BACKSLASH; LOWER_R; CR]
  ++ lit ">".

End samples.

(* ================================================================== *)
(** ** Properties of the primitives *)
(* ================================================================== *)

Unset Implicit Arguments.

Section Occurrences.

Lemma starts_with_iff (pat s : jsstring) :
  starts_with pat s = true <-> exists post, s = pat ++ post.
Proof.
  revert s; induction pat as [|p pat IH]; intros s; simpl.
  - split; [intros _; now exists s | reflexivity].
  - destruct s as [|c s].
    + split; [discriminate | intros [post H]; discriminate].
    + rewrite andb_true_iff, N.eqb_eq, IH. split.
      * intros [-> [post ->]]. now exists post.
      * intros [post H]. injection H as -> ->. split; [reflexivity | now exists post].
Qed.

Lemma occurs_at_0 (pat s : jsstring) :
  occurs_at pat s 0 <-> starts_with pat s = true.
Proof.
  rewrite starts_with_iff. split.
  - intros (pre & post & -> & Hlen).
    destruct pre; [|discriminate]. now exists post.
  - intros [post ->]. now exists [], post.
Qed.

Lemma occurs_at_S (pat : jsstring) c s i :
  occurs_at pat (c :: s) (S i) <-> occurs_at pat s i.
Proof.
  split.
  - intros (pre & post & H & Hlen).
    destruct pre as [|x pre]; [discriminate|].
    injection H as -> ->. injection Hlen as <-. now exists pre, post.
  - intros (pre & post & -> & <-). now exists (c :: pre), post.
Qed.

Lemma occurs_at_nil_S (pat : jsstring) i : ~ occurs_at pat [] (S i).
Proof.
  intros (pre & post & H & Hlen). destruct pre; discriminate.
Qed.

Lemma occurs_at_bound (pat s : jsstring) i :
  occurs_at pat s i -> i + length pat <= length s.
Proof.
  intros (pre & post & -> & <-). rewrite !length_app. lia.
Qed.

Lemma occurs_at_app_r (pat s t : jsstring) i :
  occurs_at pat s i -> occurs_at pat (s ++ t) i.
Proof.
  intros (pre & post & -> & <-). exists pre, (post ++ t).
  now rewrite <- !app_assoc.
Qed.

Lemma indexOf_Some (pat s : jsstring) i :
  indexOf s pat = Some i ->
  occurs_at pat s i /\ forall j, j < i -> ~ occurs_at pat s j.
Proof.
  revert i; induction s as [|c s IH]; intros i; simpl.
  - destruct (starts_with pat []) eqn:E; [|discriminate].
    intros [= <-]. split; [now apply occurs_at_0 | intros j Hj; lia].
  - destruct (starts_with pat (c :: s)) eqn:E.
    + intros [= <-]. split; [now apply occurs_at_0 | intros j Hj; lia].
    + destruct (indexOf s pat) as [k|] eqn:Ek; [|discriminate].
      simpl. intros [= <-]. destruct (IH k eq_refl) as [Hocc Hmin].
      split; [now apply occurs_at_S|].
      intros [|j] Hj.
      * rewrite occurs_at_0. congruence.
      * rewrite occurs_at_S. apply Hmin. lia.
Qed.

Lemma indexOf_None (pat s : jsstring) :
  indexOf s pat = None -> forall j, ~ occurs_at pat s j.
Proof.
  induction s as [|c s IH]; simpl.
  - destruct (starts_with pat []) eqn:E; [discriminate|].
    intros _ [|j]; [rewrite occurs_at_0; congruence | apply occurs_at_nil_S].
  - destruct (starts_with pat (c :: s)) eqn:E; [discriminate|].
    destruct (indexOf s pat) eqn:Ek; [discriminate|].
    intros _ [|j]; [rewrite occurs_at_0; congruence|].
    rewrite occurs_at_S. now apply IH.
Qed.

Lemma indexOf_contains (pat s : jsstring) :
  (exists i, indexOf s pat = Some i) <-> contains pat s.
Proof.
  split.
  - intros [i H]. exists i. now apply indexOf_Some.
  - intros [j H]. destruct (indexOf s pat) as [i|] eqn:E; [now exists i|].
    exfalso. eapply indexOf_None; eassumption.
Qed.

Lemma hasPrompt_iff (delimiter s : jsstring) :
  hasPrompt delimiter s = true <-> contains delimiter s.
Proof.
  rewrite <- indexOf_contains. unfold hasPrompt.
  destruct (indexOf s delimiter) as [i|].
  - split; [intros _; now exists i | reflexivity].
  - split; [discriminate | intros [i H]; discriminate].
Qed.

Lemma hasPrompt_false_iff (delimiter s : jsstring) :
  hasPrompt delimiter s = false <-> ~ contains delimiter s.
Proof.
  rewrite <- hasPrompt_iff. destruct (hasPrompt delimiter s); split; congruence.
Qed.

(** The decision [indexOf] gives for [only_at_end]. *)
Lemma only_at_end_indexOf (pat s : jsstring) :
  indexOf s pat = Some (length s - length pat) ->
  length pat <= length s ->
  only_at_end pat s.
Proof.
  intros H Hlen. destruct (indexOf_Some _ _ _ H) as [Hocc Hmin]. split.
  - destruct Hocc as (pre & post & Hs & Hpre). exists pre.
    assert (Hpost : length post = 0).
    { apply (f_equal (@length char)) in Hs. rewrite !length_app in Hs. lia. }
    destruct post; [|discriminate]. now rewrite app_nil_r in Hs.
  - intros i Hi. pose proof (occurs_at_bound _ _ _ Hi).
    destruct (Nat.lt_ge_cases i (length s - length pat)) as [Hlt|Hge].
    + exfalso. exact (Hmin _ Hlt Hi).
    + lia.
Qed.

Lemma only_at_end_contains (pat s : jsstring) :
  only_at_end pat s -> contains pat s.
Proof.
  intros [[body ->] _]. exists (length body), body, [].
  now rewrite app_nil_r.
Qed.

Lemma contains_nil_iff (pat : jsstring) : contains pat [] <-> pat = [].
Proof.
  split.
  - intros [i H]. apply occurs_at_bound in H. simpl in H.
    destruct pat; [reflexivity | simpl in H; lia].
  - intros ->. exists 0. now apply occurs_at_0.
Qed.

(** [replace_str] with an empty replacement takes out the first
    occurrence of the pattern and nothing else. *)
Lemma replace_str_first (pat s : jsstring) i :
  occurs_at pat s i ->
  (forall j, j < i -> ~ occurs_at pat s j) ->
  replace_str pat [] s = firstn i s ++ skipn (i + length pat) s.
Proof.
  revert i; induction s as [|c s IH]; intros i Hocc Hmin.
  - destruct i; [|now apply occurs_at_nil_S in Hocc].
    apply occurs_at_0 in Hocc. simpl. now rewrite Hocc.
  - destruct i as [|i].
    + apply occurs_at_0 in Hocc. unfold replace_str. now rewrite Hocc.
    + assert (E : starts_with pat (c :: s) = false).
      { destruct (starts_with pat (c :: s)) eqn:E; [|reflexivity].
        exfalso. apply (Hmin 0); [lia | now apply occurs_at_0]. }
      simpl replace_str. simpl in E. rewrite E. simpl. f_equal.
      apply IH; [now apply occurs_at_S in Hocc|].
      intros j Hj Hc. apply (Hmin (S j)); [lia | now apply occurs_at_S].
Qed.

Lemma replace_str_absent (pat rep s : jsstring) :
  ~ contains pat s -> replace_str pat rep s = s.
Proof.
  induction s as [|c s IH]; intros H.
  - simpl. destruct (starts_with pat []) eqn:E; [|reflexivity].
    exfalso. apply H. exists 0. now apply occurs_at_0.
  - simpl. destruct (starts_with pat (c :: s)) eqn:E.
    + exfalso. apply H. exists 0. now apply occurs_at_0.
    + f_equal. apply IH. intros [j Hj]. apply H. exists (S j).
      now apply occurs_at_S.
Qed.

End Occurrences.

(** Lists the characters of the string literal in the goal. *)
Ltac list_characters :=
  match goal with
  | |- context [lit ?s] =>
      let chars := fresh "chars" in
      set (chars := lit s); vm_compute in chars; subst chars
  end.

Section Characters.

Lemma replace_char_g_nil (c : char) (s : jsstring) :
  replace_char_g c [] s = filter (fun x => negb (N.eqb x c)) s.
Proof.
  induction s as [|x s IH]; simpl; [reflexivity|].
  destruct (N.eqb x c); simpl; now rewrite IH.
Qed.

Lemma replace_space_despaced (s : jsstring) :
  replace_char_g SPACE [] s = despaced s.
Proof. apply replace_char_g_nil. Qed.

Lemma class_0_9A_F_iff (c : char) :
  class_0_9A_F c = true <-> upper_hex_digit c.
Proof.
  unfold class_0_9A_F, upper_hex_digit.
  rewrite orb_true_iff, !andb_true_iff, !N.leb_le.
  list_characters.
  simpl. lia.
Qed.

Lemma greedy_run_app (p : char -> bool) (s : jsstring) :
  fst (greedy_run p s) ++ snd (greedy_run p s) = s.
Proof.
  induction s as [|c s IH]; simpl; [reflexivity|].
  destruct (p c); [|reflexivity].
  destruct (greedy_run p s) as [run rest]. simpl in *. now rewrite IH.
Qed.

Lemma greedy_run_all (p : char -> bool) (s : jsstring) :
  snd (greedy_run p s) = [] <-> Forall (fun c => p c = true) s.
Proof.
  induction s as [|c s IH]; simpl.
  - split; [constructor | reflexivity].
  - destruct (p c) eqn:E.
    + destruct (greedy_run p s) as [run rest]. simpl in *. rewrite IH.
      split; [now constructor | now inversion 1].
    + simpl. split; [discriminate | inversion 1; congruence].
Qed.

Lemma test_anchored_plus_iff (p : char -> bool) (s : jsstring) :
  test_anchored_plus p s = true <->
  s <> [] /\ Forall (fun c => p c = true) s.
Proof.
  rewrite <- greedy_run_all. unfold test_anchored_plus.
  pose proof (greedy_run_app p s) as Happ.
  destruct (greedy_run p s) as [run rest]. simpl in *.
  destruct run as [|r run], rest as [|x rest]; simpl; subst s;
    split; try discriminate; try tauto; try (intros [? ?]; congruence).
  intros _. split; [discriminate | reflexivity].
Qed.

End Characters.

Section ByteGroups.

(** Induction two characters at a time. *)
Lemma pairs_ind (P : jsstring -> Prop) :
  P [] -> (forall a, P [a]) -> (forall a b t, P t -> P (a :: b :: t)) ->
  forall s, P s.
Proof.
  intros H0 H1 H2 s.
  assert (H : P s /\ forall a, P (a :: s)); [|tauto].
  induction s as [|b s [IH1 IH2]]; split; auto.
Qed.

Lemma dot_iff (c : char) : dot c = true <-> ~ line_terminator c.
Proof.
  unfold dot, line_terminator. simpl.
  rewrite negb_true_iff, !orb_false_iff, !N.eqb_neq. intuition congruence.
Qed.

Lemma matches_dot_1_2_runs (s : jsstring) :
  Forall (fun c => ~ line_terminator c) s ->
  matches_dot_1_2 s = runs_of_2 s.
Proof.
  induction s as [| a | a b t IH] using pairs_ind; intros H.
  - reflexivity.
  - inversion_clear H as [|? ? Ha _]. apply dot_iff in Ha. simpl. now rewrite Ha.
  - inversion_clear H as [|? ? Ha H']. inversion_clear H' as [|? ? Hb Ht].
    apply dot_iff in Ha, Hb. simpl. rewrite Ha, Hb. now rewrite IH.
Qed.

Lemma runs_of_2_nil_iff (s : jsstring) : runs_of_2 s = [] <-> s = [].
Proof. destruct s as [|a [|b t]]; simpl; split; congruence. Qed.

Lemma concat_runs_of_2 (s : jsstring) : concat (runs_of_2 s) = s.
Proof.
  induction s as [| a | a b t IH] using pairs_ind; simpl; congruence.
Qed.

Lemma runs_of_2_inner (s : jsstring) i :
  S i < length (runs_of_2 s) -> length (nth i (runs_of_2 s) []) = 2.
Proof.
  revert i. induction s as [| a | a b t IH] using pairs_ind; simpl; intros i Hi.
  - lia.
  - lia.
  - destruct i; [reflexivity | apply IH; lia].
Qed.

Lemma runs_of_2_last (s : jsstring) :
  s <> [] ->
  length (last (runs_of_2 s) []) =
  if Nat.odd (length s) then 1 else 2.
Proof.
  induction s as [| a | a b t IH] using pairs_ind; intros Hs.
  - congruence.
  - reflexivity.
  - change (runs_of_2 (a :: b :: t)) with ([a; b] :: runs_of_2 t).
    change (length (a :: b :: t)) with (S (S (length t))).
    rewrite Nat.odd_succ_succ.
    destruct t as [|c t]; [reflexivity|].
    rewrite <- IH by discriminate.
    destruct (runs_of_2 (c :: t)) eqn:E; [|reflexivity].
    apply runs_of_2_nil_iff in E. discriminate.
Qed.

Lemma despaced_no_terminator (s : jsstring) :
  Forall (fun c => ~ line_terminator c) s ->
  Forall (fun c => ~ line_terminator c) (despaced s).
Proof.
  intros H. apply Forall_forall. intros c Hc.
  apply filter_In in Hc. rewrite Forall_forall in H. now apply H.
Qed.

(** The byte groups of a string without line terminators. *)
Lemma getByteGroupings_runs (s : jsstring) :
  Forall (fun c => ~ line_terminator c) s ->
  getByteGroupings s =
  match despaced s with
  | [] => None
  | _ :: _ => Some (runs_of_2 (despaced s))
  end.
Proof.
  intros H. unfold getByteGroupings, match_dot_1_2_g.
  rewrite replace_space_despaced.
  rewrite matches_dot_1_2_runs by now apply despaced_no_terminator.
  destruct (despaced s) as [|a [|b t]]; reflexivity.
Qed.

Lemma upper_hex_not_terminator (c : char) :
  upper_hex_digit c -> ~ line_terminator c.
Proof.
  unfold upper_hex_digit, line_terminator.
  list_characters.
  simpl. lia.
Qed.

Lemma upper_hex_not_space (c : char) : upper_hex_digit c -> c <> SPACE.
Proof.
  unfold upper_hex_digit, SPACE.
  list_characters.
  simpl. lia.
Qed.

Lemma despaced_id (s : jsstring) : ~ In SPACE s -> despaced s = s.
Proof.
  induction s as [|c s IH]; intros H; [reflexivity|].
  simpl. destruct (N.eqb_spec c SPACE) as [->|_].
  - exfalso. apply H. now left.
  - simpl. f_equal. apply IH. intros Hc. apply H. now right.
Qed.

Lemma isHex_iff_digits (s : jsstring) :
  isHex s = true <-> s <> [] /\ Forall upper_hex_digit s.
Proof.
  unfold isHex. rewrite test_anchored_plus_iff, !Forall_forall.
  split; intros [Hne H]; (split; [exact Hne|]); intros c Hc;
    apply class_0_9A_F_iff; now apply H.
Qed.

(** The byte groups of a hexadecimal string. *)
Lemma getByteGroupings_hex (s : jsstring) :
  isHex s = true -> getByteGroupings s = Some (runs_of_2 s).
Proof.
  intros H. apply isHex_iff_digits in H. destruct H as [Hne H].
  assert (Hsp : despaced s = s).
  { apply despaced_id. intros Hin. rewrite Forall_forall in H.
    now apply (upper_hex_not_space _ (H _ Hin)). }
  rewrite getByteGroupings_runs.
  - rewrite Hsp. destruct s; [congruence | reflexivity].
  - eapply Forall_impl; [|exact H]. intros c. apply upper_hex_not_terminator.
Qed.

Lemma head_runs_of_2 (s : jsstring) :
  s <> [] -> nth_error (runs_of_2 s) 0 = Some (firstn 2 s).
Proof. destruct s as [|a [|b t]]; intros H; [congruence | reflexivity..]. Qed.

End ByteGroups.

(* ================================================================== *)
(** ** Runs of the parser *)
(* ================================================================== *)

Lemma str_eqb_eq (a b : jsstring) : str_eqb a b = true <-> a = b.
Proof.
  revert b; induction a as [|x a IH]; intros [|y b]; simpl;
    try (split; congruence).
  rewrite andb_true_iff, N.eqb_eq, IH. split; [intros [-> ->] | intros [= -> ->]]; auto.
Qed.

Section Runs.

Variable OBD_OUTPUT_DELIMETER : jsstring.
Variable MODE_01 : jsstring.
Variable JsValue : Type.
Variable pids_getBy_pid : option jsstring -> option (PidInfo JsValue).
Variable Date_now : nat -> Z.

Local Abbreviation parse := (parseObdString MODE_01 pids_getBy_pid Date_now).
Local Abbreviation emit_one := (emit_parsed MODE_01 pids_getBy_pid Date_now).
Local Abbreviation transform :=
  (_transform OBD_OUTPUT_DELIMETER MODE_01 pids_getBy_pid Date_now).
Local Abbreviation write :=
  (write_all OBD_OUTPUT_DELIMETER MODE_01 pids_getBy_pid Date_now).
Local Abbreviation extract := (extractOutputStrings OBD_OUTPUT_DELIMETER).
Local Abbreviation prompt := (hasPrompt OBD_OUTPUT_DELIMETER).
Local Abbreviation ticked this n :=
  {| _buffer := _buffer this; clock := clock this + n |}.

(** A generic message is returned as it is. *)
Lemma parseObdString_generic str this :
  isHex str = false ->
  parse str this =
  (Normal {| ts := Date_now (clock this); value := None; raw := str;
             byteGroups := getByteGroupings str; error := None |},
   ticked this 1, []).
Proof.
  intros H. unfold parseObdString, bind, now. simpl. rewrite H. simpl.
  now rewrite Nat.add_1_r.
Qed.

(** A hexadecimal string is decoded by its first byte group. *)
Lemma parseObdString_hex str this :
  isHex str = true ->
  parse str this =
  (Normal
     (if str_eqb (firstn 2 str) MODE_01 then
        match parseRealTime pids_getBy_pid (runs_of_2 str) with
        | Failure e =>
            {| ts := Date_now (clock this); value := None; raw := str;
               byteGroups := Some (runs_of_2 str); error := Some e |}
        | Value v =>
            {| ts := Date_now (clock this); value := v; raw := str;
               byteGroups := Some (runs_of_2 str); error := None |}
        end
      else
        {| ts := Date_now (clock this); value := None; raw := str;
           byteGroups := Some (runs_of_2 str);
           error := Some (ModeNotSupported (join [SPACE] (runs_of_2 str))
                                           (Some (firstn 2 str))) |}),
   ticked this 1, []).
Proof.
  intros H.
  assert (Hne : str <> []) by (apply isHex_iff_digits in H; tauto).
  pose proof (head_runs_of_2 _ Hne) as Hhd. simpl nth_error in Hhd.
  set (first := firstn 2 str) in *.
  unfold parseObdString, bind, now. simpl. rewrite H. simpl.
  rewrite (getByteGroupings_hex _ H). simpl.
  rewrite Hhd, Nat.add_1_r.
  destruct (str_eqb first MODE_01); [|reflexivity].
  destruct (parseRealTime pids_getBy_pid (runs_of_2 str)); reflexivity.
Qed.

(** [parseObdString] returns, and only reads the clock. *)
Lemma parseObdString_returns str this :
  exists r, parse str this = (Normal r, ticked this 1, []) /\ raw r = str.
Proof.
  destruct (isHex str) eqn:H.
  - rewrite (parseObdString_hex _ _ H). eexists. split; [reflexivity|].
    destruct (str_eqb (firstn 2 str) MODE_01); [|reflexivity].
    destruct (parseRealTime pids_getBy_pid (runs_of_2 str)); reflexivity.
  - rewrite (parseObdString_generic _ _ H). eexists. split; reflexivity.
Qed.

(** Apart from the timestamp the result depends on the string only. *)
Lemma parseObdString_untimed str this this' r r' :
  outcome (parse str this) = Normal r ->
  outcome (parse str this') = Normal r' ->
  untimed r = untimed r'.
Proof.
  destruct (isHex str) eqn:H.
  - rewrite !(parseObdString_hex _ _ H). unfold outcome; cbn [fst].
    destruct (str_eqb (firstn 2 str) MODE_01);
      [destruct (parseRealTime pids_getBy_pid (runs_of_2 str))|];
      intros [= <-] [= <-]; reflexivity.
  - rewrite !(parseObdString_generic _ _ H). unfold outcome; cbn [fst].
    now intros [= <-] [= <-].
Qed.

Lemma emit_parsed_run c this :
  exists r, emit_one c this = (Normal tt, ticked this 1, [data_event r])
            /\ outcome (parse c this) = Normal r.
Proof.
  destruct (parseObdString_returns c this) as (r & Hr & _).
  exists r. unfold emit_parsed, bind. rewrite Hr. simpl. split; reflexivity.
Qed.

(** Every command of a frame is decoded and emitted, in order. *)
Lemma each_emit_parsed_run cmds this :
  exists out,
    each cmds emit_one this = (Normal tt, ticked this (length cmds), out)
    /\ Forall2 (fun c r => exists w, outcome (parse c w) = Normal r)
               cmds (results out)
    /\ out = map (@data_event JsValue) (results out).
Proof.
  revert this; induction cmds as [|c cmds IH]; intros this.
  - exists []. simpl. unfold ret. rewrite Nat.add_0_r.
    destruct this; repeat split; constructor.
  - destruct (emit_parsed_run c this) as (r & Hrun & Hr).
    destruct (IH (ticked this 1)) as (out & Hout & Hall & Hdata).
    exists (data_event r :: out). simpl each. unfold bind at 1.
    rewrite Hrun, Hout. simpl. repeat split.
    + do 2 f_equal. f_equal. lia.
    + constructor; [now exists this | exact Hall].
    + now rewrite <- Hdata.
Qed.

Lemma each_emit_parsed_untimed cmds this this' :
  map (@untimed JsValue) (results (emitted (each cmds emit_one this))) =
  map (@untimed JsValue) (results (emitted (each cmds emit_one this'))).
Proof.
  destruct (each_emit_parsed_run cmds this) as (out & -> & H & _).
  destruct (each_emit_parsed_run cmds this') as (out' & -> & H' & _).
  unfold emitted. simpl.
  revert H H'. generalize (results out) (results out'). clear.
  induction cmds as [|c cmds IH]; intros rs rs' H H';
    inversion H; inversion H'; subst; [reflexivity|].
  simpl. f_equal; [|now apply IH].
  repeat match goal with
         | Hx : exists w, _ |- _ => destruct Hx as [? Hx]
         end.
  eapply parseObdString_untimed; eassumption.
Qed.

End Runs.

(* ================================================================== *)
(** ** Decoding chunk by chunk *)
(* ================================================================== *)

Section Decoding.

Lemma utf8_step_idle (st : utf8_state) (b : byte) :
  bytes_needed st = 0 -> utf8_step st b = utf8_lead b.
Proof. unfold utf8_step. now intros ->. Qed.

Lemma utf8_decode_idle (st : utf8_state) (bytes : list byte) :
  bytes_needed st = 0 -> utf8_decode st bytes = utf8_decode utf8_init bytes.
Proof.
  intros H. destruct bytes as [|b t]; simpl.
  - now rewrite H.
  - now rewrite (utf8_step_idle st b H).
Qed.

Lemma utf8_decode_app (st : utf8_state) (a b : list byte) :
  bytes_needed (utf8_final st a) = 0 ->
  utf8_decode st (a ++ b) = utf8_decode st a ++ utf8_decode utf8_init b.
Proof.
  revert st; induction a as [|x a IH]; intros st H; simpl in *.
  - rewrite H. simpl. now apply utf8_decode_idle.
  - destruct (utf8_step st x) as [out st']. simpl in H.
    rewrite (IH st' H). now rewrite app_assoc.
Qed.

(** A chunk that ends between two characters can be decoded on its
    own. *)
Lemma Buffer_toString_utf8_app (a b : list byte) :
  utf8_complete a ->
  Buffer_toString_utf8 (a ++ b) =
  Buffer_toString_utf8 a ++ Buffer_toString_utf8 b.
Proof.
  intros H. unfold Buffer_toString_utf8.
  rewrite (utf8_decode_app utf8_init a b H). apply flat_map_app.
Qed.

Lemma Buffer_toString_utf8_concat (chunks : list (list byte)) :
  Forall utf8_complete chunks ->
  Buffer_toString_utf8 (concat chunks) =
  flat_map Buffer_toString_utf8 chunks.
Proof.
  induction 1 as [|c chunks Hc _ IH]; simpl; [reflexivity|].
  now rewrite (Buffer_toString_utf8_app c _ Hc), IH.
Qed.

(** ASCII bytes decode to themselves. *)
Lemma utf8_ascii (bytes : list byte) :
  Forall (fun b => (b < 128)%N) bytes ->
  utf8_complete bytes /\ Buffer_toString_utf8 bytes = bytes.
Proof.
  unfold utf8_complete, Buffer_toString_utf8.
  induction 1 as [|b t Hb _ [IH1 IH2]]; simpl; [split; reflexivity|].
  assert (E : utf8_step utf8_init b = ([b], utf8_init)).
  { unfold utf8_step, utf8_lead. simpl.
    destruct (N.leb_spec b 127); [reflexivity | lia]. }
  rewrite E. simpl. split; [exact IH1|].
  rewrite IH2. unfold utf16_units.
  destruct (N.ltb_spec b 65536); [reflexivity | lia].
Qed.

Lemma ascii_chunks_complete (chunks : list (list byte)) :
  Forall (Forall (fun b => (b < 128)%N)) chunks ->
  Forall utf8_complete chunks.
Proof.
  intros H. eapply Forall_impl; [|exact H].
  intros c Hc. exact (proj1 (utf8_ascii c Hc)).
Qed.

End Decoding.

(* ================================================================== *)
(** ** Framing *)
(* ================================================================== *)

Section Framing.

Variable OBD_OUTPUT_DELIMETER : jsstring.
Variable MODE_01 : jsstring.
Variable JsValue : Type.
Variable pids_getBy_pid : option jsstring -> option (PidInfo JsValue).
Variable Date_now : nat -> Z.

Local Abbreviation emit_one := (emit_parsed MODE_01 pids_getBy_pid Date_now).
Local Abbreviation transform :=
  (_transform OBD_OUTPUT_DELIMETER MODE_01 pids_getBy_pid Date_now).
Local Abbreviation write :=
  (write_all OBD_OUTPUT_DELIMETER MODE_01 pids_getBy_pid Date_now).
Local Abbreviation extract := (extractOutputStrings OBD_OUTPUT_DELIMETER).
Local Abbreviation prompt := (hasPrompt OBD_OUTPUT_DELIMETER).

(** A chunk that does not complete the output is kept. *)
Lemma _transform_pending data this :
  prompt (_buffer this ++ Buffer_toString_utf8 data) = false ->
  transform data this =
  (Normal tt,
   {| _buffer := _buffer this ++ Buffer_toString_utf8 data;
      clock := clock this |},
   []).
Proof.
  intros H. unfold _transform, bind, get_buffer, set_buffer. simpl.
  now rewrite H.
Qed.

(** A chunk that completes the output: the commands of the buffer are
    decoded and emitted after the line break, and the buffer is reset. *)
Lemma _transform_complete data this :
  prompt (_buffer this ++ Buffer_toString_utf8 data) = true ->
  exists out,
    transform data this =
    (Normal tt,
     {| _buffer := [];
        clock := clock this
                 + length (extract (_buffer this ++ Buffer_toString_utf8 data)) |},
     line_break :: out)
    /\ out = emitted (each (extract (_buffer this ++ Buffer_toString_utf8 data))
                           emit_one
                           {| _buffer := _buffer this ++ Buffer_toString_utf8 data;
                              clock := clock this |})
    /\ out = map (@data_event JsValue) (results out).
Proof.
  intros H. set (buf := _buffer this ++ Buffer_toString_utf8 data) in *.
  destruct (each_emit_parsed_run MODE_01 JsValue pids_getBy_pid Date_now
              (extract buf) {| _buffer := buf; clock := clock this |})
    as (out & Hout & _ & Hdata).
  exists out. simpl in Hout. repeat split.
  - unfold _transform, bind, get_buffer, set_buffer, emit, _flush. simpl.
    fold buf. rewrite H. simpl. fold buf. rewrite Hout. simpl.
    now rewrite app_nil_r.
  - now rewrite Hout.
  - exact Hdata.
Qed.

Lemma results_app (a b : list (event JsValue)) :
  results (a ++ b) = results a ++ results b.
Proof.
  induction a as [|[|r] a IH]; simpl; [reflexivity | exact IH | now rewrite IH].
Qed.

Lemma replace_str_nil (pat : jsstring) : replace_str pat [] [] = [].
Proof.
  simpl. destruct (starts_with pat []); [|reflexivity].
  now rewrite skipn_nil.
Qed.

Lemma extractOutputStrings_nil : extract [] = [].
Proof.
  unfold extractOutputStrings.
  cbn [replace_char_g replace_pair_g split_char map].
  now rewrite (replace_str_nil OBD_OUTPUT_DELIMETER).
Qed.

(** Chunks without text, written to an empty buffer, give no result. *)
Lemma write_all_silent chunks this :
  Forall (fun c => Buffer_toString_utf8 c = []) chunks ->
  _buffer this = [] ->
  outcome (write chunks this) = Normal tt
  /\ _buffer (after (write chunks this)) = []
  /\ results (emitted (write chunks this)) = [].
Proof.
  intros H; revert this; induction H as [|c chunks Hc _ IH]; intros this Hb.
  - simpl. repeat split. exact Hb.
  - simpl write_all. unfold bind.
    destruct (prompt (_buffer this ++ Buffer_toString_utf8 c)) eqn:Hp.
    + destruct (_transform_complete c this Hp) as (out & -> & Hout & _).
      rewrite Hb, Hc in Hout. simpl in Hout.
      rewrite extractOutputStrings_nil in Hout. simpl in Hout. subst out.
      match goal with
      | |- context [write chunks ?w] =>
          destruct (IH w eq_refl) as (H1 & H2 & H3);
          destruct (write chunks w) as [[c' w'] out']
      end.
      unfold outcome, after, emitted in *. simpl in *. now repeat split.
    + rewrite (_transform_pending c this Hp).
      match goal with
      | |- context [write chunks ?w] =>
          assert (Hw : _buffer w = []) by (simpl; now rewrite Hb, Hc);
          destruct (IH w Hw) as (H1 & H2 & H3);
          destruct (write chunks w) as [[c' w'] out']
      end.
      unfold outcome, after, emitted in *. simpl in *. now repeat split.
Qed.

Lemma flat_map_nil {A B} (f : A -> list B) (l : list A) :
  flat_map f l = [] -> Forall (fun x => f x = []) l.
Proof.
  induction l as [|x l IH]; simpl; intros H; constructor;
    apply app_eq_nil in H; tauto.
Qed.

(** Writing the chunks of one output one after the other decodes the
    commands of the whole output, once. *)
Lemma write_all_frames chunks :
  forall this,
  Forall utf8_complete chunks ->
  ~ contains OBD_OUTPUT_DELIMETER (_buffer this) ->
  only_at_end OBD_OUTPUT_DELIMETER
    (_buffer this ++ Buffer_toString_utf8 (concat chunks)) ->
  outcome (write chunks this) = Normal tt
  /\ _buffer (after (write chunks this)) = []
  /\ map (@untimed JsValue) (results (emitted (write chunks this))) =
     map (@untimed JsValue)
       (results (emitted
          (each (extract (_buffer this ++ Buffer_toString_utf8 (concat chunks)))
                emit_one this))).
Proof.
  induction chunks as [|c chunks IH]; intros this Hall Hno Hend.
  - exfalso. apply Hno. apply only_at_end_contains in Hend.
    simpl in Hend. change (Buffer_toString_utf8 []) with (@nil char) in Hend.
    now rewrite app_nil_r in Hend.
  - inversion_clear Hall as [|? ? Hc Hrest].
    simpl concat in *. rewrite (Buffer_toString_utf8_app c _ Hc) in *.
    rewrite app_assoc in *.
    set (T := Buffer_toString_utf8 (concat chunks)) in *.
    simpl write_all. unfold bind.
    destruct (prompt (_buffer this ++ Buffer_toString_utf8 c)) eqn:Hp.
    + assert (HT : T = []).
      { apply hasPrompt_iff in Hp. destruct Hp as [i Hi].
        pose proof (occurs_at_bound _ _ _ Hi) as Hbound.
        apply (occurs_at_app_r _ _ T) in Hi. apply (proj2 Hend) in Hi.
        rewrite length_app in Hi.
        destruct T; [reflexivity | simpl in Hi; lia]. }
      assert (Hsilent : Forall (fun c => Buffer_toString_utf8 c = []) chunks).
      { apply flat_map_nil. rewrite <- Buffer_toString_utf8_concat by exact Hrest.
        exact HT. }
      destruct (_transform_complete c this Hp) as (out & -> & Hout & _).
      match goal with
      | |- context [write chunks ?w] =>
          destruct (write_all_silent chunks w Hsilent eq_refl) as (H1 & H2 & H3);
          destruct (write chunks w) as [[c' w'] out']
      end.
      unfold outcome, after, emitted in H1, H2, H3 |- *. simpl in H1, H2, H3 |- *.
      subst c'. repeat split; [exact H2|].
      rewrite results_app, H3, app_nil_r, HT, app_nil_r, Hout.
      apply each_emit_parsed_untimed.
    + rewrite (_transform_pending c this Hp).
      apply hasPrompt_false_iff in Hp.
      match goal with
      | |- context [write chunks ?w] =>
          destruct (IH w Hrest Hp Hend) as (H1 & H2 & H3);
          destruct (write chunks w) as [[c' w'] out']
      end.
      unfold outcome, after, emitted in H1, H2, H3 |- *. simpl in H1, H2, H3 |- *.
      subst c'. repeat split; [exact H2|].
      rewrite H3. apply each_emit_parsed_untimed.
Qed.

End Framing.

(* ================================================================== *)
(** ** Splitting a frame *)
(* ================================================================== *)

Section Splitting.

Lemma replace_pair_g_plain (a b : char) (rep s rest : jsstring) :
  ~ In a s ->
  replace_pair_g a b rep (s ++ rest) = s ++ replace_pair_g a b rep rest.
Proof.
  induction s as [|x s IH]; intros H; [reflexivity|].
  assert (Hx : N.eqb x a = false).
  { apply N.eqb_neq. intros ->. apply H. now left. }
  assert (Hs : ~ In a s) by (intros Hin; apply H; now right).
  change ((x :: s) ++ rest) with (x :: (s ++ rest)).
  simpl replace_pair_g. rewrite Hx. simpl andb.
  rewrite (IH Hs). destruct (s ++ rest) eqn:E; [|reflexivity].
  apply app_eq_nil in E. destruct E as [-> ->]. reflexivity.
Qed.

Lemma replace_pair_g_hit (a b : char) (rep rest : jsstring) :
  replace_pair_g a b rep (a :: b :: rest) = rep ++ replace_pair_g a b rep rest.
Proof. simpl. now rewrite !N.eqb_refl. Qed.

Lemma replace_pair_g_miss (a b x : char) (rep rest : jsstring) :
  x <> a ->
  replace_pair_g a b rep (x :: rest) = x :: replace_pair_g a b rep rest.
Proof.
  intros H. apply (replace_pair_g_plain a b rep [x] rest).
  simpl. intuition congruence.
Qed.


Lemma split_char_plain (c : char) (s : jsstring) :
  ~ In c s -> split_char c s = [s].
Proof.
  induction s as [|x s IH]; intros H; [reflexivity|].
  simpl. destruct (N.eqb_spec x c) as [->|_].
  - exfalso. apply H. now left.
  - rewrite IH; [reflexivity|]. intros Hin. apply H. now right.
Qed.




Lemma truthy_iff (s : jsstring) : truthy s = true <-> s <> [].
Proof. destruct s; simpl; split; congruence. Qed.

(** The steps of [extractOutputStrings], one after the other. *)
Lemma extractOutputStrings_steps (delimiter frame : jsstring) :
  extractOutputStrings delimiter frame =
  filter truthy
    (map (normalised delimiter)
       (split_char CR
          (replace_pair_g BACKSLASH LOWER_R [CR]
             (without_line_feeds frame)))).
Proof.
  unfold extractOutputStrings, normalised, without_line_feeds.
  rewrite replace_char_g_nil. f_equal. apply map_ext.
  intros c. now rewrite replace_space_despaced.
Qed.

End Splitting.

(* ================================================================== *)
(** ** The arguments of a converter *)
(* ================================================================== *)

Section Slices.

Context {A : Type}.

(** [arr.slice(2, n)] holds the elements of [arr] at the indices from 2
    up to [n], as far as [arr] has them. *)
Lemma slice_2_nth_error (n : nat) (arr : list A) (i : nat) :
  nth_error (slice 2 (Z.of_nat n) arr) i =
  if 2 + i <? n then nth_error arr (2 + i) else None.
Proof.
  unfold slice.
  destruct (Z.ltb_spec 2 0) as [Hc|_]; [lia|].
  destruct (Z.ltb_spec (Z.of_nat n) 0) as [Hc|_]; [lia|].
  rewrite nth_error_firstn, nth_error_skipn.
  destruct (Nat.ltb_spec (2 + i) n) as [Hin|Hout].
  - destruct (Nat.ltb_spec i
      (Z.to_nat (Z.min (Z.of_nat n) (Z.of_nat (length arr))
                 - Z.min 2 (Z.of_nat (length arr))))) as [Hlt|Hge].
    + f_equal. lia.
    + symmetry. apply nth_error_None.
      transitivity (length arr); [lia|]. apply nth_error_None.
      destruct (nth_error arr (2 + i)) eqn:E; [|reflexivity].
      exfalso. assert (2 + i < length arr) by (apply nth_error_Some; congruence).
      lia.
  - destruct (Nat.ltb_spec i
      (Z.to_nat (Z.min (Z.of_nat n) (Z.of_nat (length arr))
                 - Z.min 2 (Z.of_nat (length arr))))) as [Hlt|Hge];
      [lia | reflexivity].
Qed.

(** When [arr] is no longer than [n] the slice is all of [arr] after its
    first two elements. *)
Lemma slice_2_short (n : nat) (arr : list A) :
  length arr <= n -> slice 2 (Z.of_nat n) arr = skipn 2 arr.
Proof.
  intros H. unfold slice.
  destruct (Z.ltb_spec 2 0) as [Hc|_]; [lia|].
  destruct (Z.ltb_spec (Z.of_nat n) 0) as [Hc|_]; [lia|].
  destruct (Nat.le_gt_cases 2 (length arr)) as [H2|H2].
  - replace (Z.to_nat (Z.min 2 (Z.of_nat (length arr)))) with 2 by lia.
    apply firstn_all2. rewrite length_skipn. lia.
  - rewrite !skipn_all2 by lia. apply firstn_nil.
Qed.

End Slices.

(* ================================================================== *)
(** ** The claims of the specification *)
(* ================================================================== *)

(** *** HexValidator *)

(** C7. [isHex s] is true exactly when [s] is not empty and every one of
    its characters is an uppercase hexadecimal digit; so a string with a
    character outside 0-9A-F (a lowercase letter, punctuation) is
    rejected. *)
Theorem isHex_correct (s : jsstring) :
  (isHex s = true <-> s <> [] /\ Forall upper_hex_digit s)
  /\ (forall c, In c s -> ~ upper_hex_digit c -> isHex s = false).
Proof.
  split; [apply isHex_iff_digits|].
  intros c Hin Hc. destruct (isHex s) eqn:E; [|reflexivity].
  apply isHex_iff_digits in E. destruct E as [_ E].
  rewrite Forall_forall in E. exfalso. exact (Hc (E c Hin)).
Qed.

Lemma isHex_correct_witness :
  In 97%N (lit "41a") /\ ~ upper_hex_digit 97%N /\ isHex (lit "41a") = false.
Proof.
  assert (Hin : In 97%N (lit "41a")) by (vm_compute; tauto).
  assert (Hc : ~ upper_hex_digit 97%N).
  { unfold upper_hex_digit. vm_compute. intuition discriminate. }
  split; [exact Hin|]. split; [exact Hc|].
  exact (proj2 (isHex_correct (lit "41a")) 97%N Hin Hc).
Defined.

(** *** ByteGrouper *)

(** C8, as the claim states it, fails where the string holds a space: the
    spaces are taken out before the runs are cut, so "A B" gives the one
    run "AB" and not the runs "A " and "B". *)
Lemma byte_grouper_counterexample :
  getByteGroupings (lit "A B") = Some [lit "AB"]
  /\ getByteGroupings (lit "A B") <> Some (runs_of_2 (lit "A B")).
Proof. split; [reflexivity | vm_compute; discriminate]. Qed.

(** C8, amended.  For a string without line terminators, the byte groups
    are the runs of two characters of the string without its spaces, from
    the left, the last run one character long when that length is odd;
    when nothing is left without the spaces the result is null.  The byte
    groups of "1B56" are "1B", "56" and those of "1B5" are "1B", "5". *)
Theorem byte_grouper_correct (s : jsstring) :
  Forall (fun c => ~ line_terminator c) s ->
  getByteGroupings s =
    match despaced s with
    | [] => None
    | _ :: _ => Some (runs_of_2 (despaced s))
    end
  /\ getByteGroupings (lit "1B56") = Some [lit "1B"; lit "56"]
  /\ getByteGroupings (lit "1B5") = Some [lit "1B"; lit "5"].
Proof.
  intros H. split; [now apply getByteGroupings_runs|]. split; reflexivity.
Qed.

Lemma byte_grouper_correct_witness :
  Forall (fun c => ~ line_terminator c) (lit "41 0C 1B 5")
  /\ getByteGroupings (lit "41 0C 1B 5")
     = Some [lit "41"; lit "0C"; lit "1B"; lit "5"].
Proof.
  assert (H : Forall (fun c => ~ line_terminator c) (lit "41 0C 1B 5")).
  { vm_compute. repeat constructor; intuition discriminate. }
  split; [exact H|].
  exact (proj1 (byte_grouper_correct (lit "41 0C 1B 5") H)).
Defined.

(** C10, as the claim states it, fails where the string holds a line
    terminator: [.] does not match it, so "A", LF, "B" gives the tokens "A"
    and "B", the first of length 1, and their concatenation is not the
    string. *)
Lemma byte_grouping_roundtrip_counterexample :
  getByteGroupings [65; 10; 66]%N = Some [[65]; [66]]%N
  /\ concat [[65]; [66]]%N <> despaced [65; 10; 66]%N
  /\ length (nth 0 [[65]; [66]]%N []) <> 2.
Proof.
  split; [reflexivity|]. split; vm_compute; discriminate.
Qed.

(** C10, amended.  For a string without line terminators: when something
    is left of it without its spaces, the tokens concatenated in order are
    the string without its spaces, every token but the last has length 2,
    and the last has length 1 when the length without the spaces is odd
    and 2 when it is even; when nothing is left, as for the empty string,
    the result is null and not an empty sequence. *)
Theorem byte_grouping_roundtrip (s : jsstring) :
  Forall (fun c => ~ line_terminator c) s ->
  (despaced s <> [] ->
   exists tokens,
     getByteGroupings s = Some tokens
     /\ concat tokens = despaced s
     /\ (forall i, S i < length tokens -> length (nth i tokens []) = 2)
     /\ length (last tokens []) =
        if Nat.odd (length (despaced s)) then 1 else 2)
  /\ (despaced s = [] -> getByteGroupings s = None)
  /\ getByteGroupings [] = None.
Proof.
  intros H. pose proof (getByteGroupings_runs s H) as E.
  split; [|split; [|reflexivity]].
  - intros Hne. exists (runs_of_2 (despaced s)). split.
    + rewrite E. destruct (despaced s); [congruence | reflexivity].
    + split; [apply concat_runs_of_2|].
      split; [apply runs_of_2_inner | now apply runs_of_2_last].
  - intros Hnil. now rewrite E, Hnil.
Qed.

Lemma byte_grouping_roundtrip_witness :
  Forall (fun c => ~ line_terminator c) (lit "1B 5")
  /\ despaced (lit "1B 5") <> []
  /\ exists tokens,
       getByteGroupings (lit "1B 5") = Some tokens
       /\ concat tokens = despaced (lit "1B 5")
       /\ (forall i, S i < length tokens -> length (nth i tokens []) = 2)
       /\ length (last tokens []) =
          if Nat.odd (length (despaced (lit "1B 5"))) then 1 else 2.
Proof.
  assert (H : Forall (fun c => ~ line_terminator c) (lit "1B 5")).
  { vm_compute. repeat constructor; intuition discriminate. }
  assert (Hne : despaced (lit "1B 5") <> []) by (vm_compute; discriminate).
  split; [exact H|]. split; [exact Hne|].
  exact (proj1 (byte_grouping_roundtrip (lit "1B 5") H) Hne).
Defined.

(** *** StreamAccumulator: the buffer *)

(** C2. A write returns, and after it: either the buffer with the chunk
    appended holds no delimiter, and then the buffer is the former buffer
    with the chunk appended and nothing was emitted; or it holds the
    delimiter, and then the buffer is empty. *)
Theorem buffer_lifecycle
  (OBD_OUTPUT_DELIMETER MODE_01 : jsstring) (JsValue : Type)
  (pids_getBy_pid : option jsstring -> option (PidInfo JsValue))
  (Date_now : nat -> Z) (data : list byte) (this : OBDStreamParser) :
  outcome (_transform OBD_OUTPUT_DELIMETER MODE_01 pids_getBy_pid Date_now
             data this) = Normal tt
  /\ ((~ contains OBD_OUTPUT_DELIMETER
           (_buffer this ++ Buffer_toString_utf8 data)
       /\ _buffer (after (_transform OBD_OUTPUT_DELIMETER MODE_01
                            pids_getBy_pid Date_now data this))
          = _buffer this ++ Buffer_toString_utf8 data
       /\ emitted (_transform OBD_OUTPUT_DELIMETER MODE_01
                     pids_getBy_pid Date_now data this) = [])
      \/ (contains OBD_OUTPUT_DELIMETER
            (_buffer this ++ Buffer_toString_utf8 data)
          /\ _buffer (after (_transform OBD_OUTPUT_DELIMETER MODE_01
                               pids_getBy_pid Date_now data this)) = [])).
Proof.
  destruct (hasPrompt OBD_OUTPUT_DELIMETER
              (_buffer this ++ Buffer_toString_utf8 data)) eqn:Hp.
  - destruct (_transform_complete OBD_OUTPUT_DELIMETER MODE_01 JsValue
                pids_getBy_pid Date_now data this Hp) as (out & -> & _).
    split; [reflexivity|]. right. split; [|reflexivity].
    now apply hasPrompt_iff.
  - rewrite (_transform_pending OBD_OUTPUT_DELIMETER MODE_01 JsValue
               pids_getBy_pid Date_now data this Hp).
    split; [reflexivity|]. left. split; [|split; reflexivity].
    now apply hasPrompt_false_iff.
Qed.

(** *** ResponseDecoder *)

(** C4. A command that is not hexadecimal is returned as a result whose
    value is null and that has no error, with the command as [raw] and its
    byte groups; written to a new parser, "NODATA>" gives the one result
    of raw "NODATA", value null and no error. *)
Theorem generic_message
  (MODE_01 : jsstring) (JsValue : Type)
  (pids_getBy_pid : option jsstring -> option (PidInfo JsValue))
  (Date_now : nat -> Z) (str : jsstring) (this : OBDStreamParser) :
  isHex str = false ->
  parseObdString MODE_01 pids_getBy_pid Date_now str this =
    (Normal {| ts := Date_now (clock this); value := None; raw := str;
               byteGroups := getByteGroupings str; error := None |},
     {| _buffer := _buffer this; clock := S (clock this) |}, [])
  /\ _transform constants.OBD_OUTPUT_DELIMETER MODE_01 pids_getBy_pid Date_now
       (bytes_of "NODATA>") new_OBDStreamParser =
     (Normal tt, {| _buffer := []; clock := 1 |},
      [line_break;
       data_event {| ts := Date_now 0; value := None; raw := lit "NODATA";
                     byteGroups := Some [lit "NO"; lit "DA"; lit "TA"];
                     error := None |}]).
Proof.
  intros H. split; [|reflexivity].
  rewrite (parseObdString_generic MODE_01 JsValue pids_getBy_pid Date_now
             str this H).
  now rewrite Nat.add_1_r.
Qed.

Lemma generic_message_witness :
  isHex (lit "NODATA") = false
  /\ parseObdString constants.MODE_01 samples.no_pids samples.ticking
       (lit "NODATA") new_OBDStreamParser =
     (Normal {| ts := 0; value := None; raw := lit "NODATA";
                byteGroups := Some [lit "NO"; lit "DA"; lit "TA"];
                error := None |},
      {| _buffer := []; clock := 1 |}, []).
Proof.
  split; [reflexivity|].
  exact (proj1 (generic_message constants.MODE_01 Z samples.no_pids
                  samples.ticking (lit "NODATA") new_OBDStreamParser
                  eq_refl)).
Defined.

(** C5. A hexadecimal command whose first byte group is not the mode
    marker is returned as a result whose error is the unsupported-mode
    error made of the byte groups, and whose value is null.  With the
    marker 41, the output "5512AB", CR, CR, ">" gives that one result; the
    write returns and the next output is decoded as usual. *)
Theorem unsupported_mode
  (MODE_01 : jsstring) (JsValue : Type)
  (pids_getBy_pid : option jsstring -> option (PidInfo JsValue))
  (Date_now : nat -> Z) (str : jsstring) (this : OBDStreamParser) :
  isHex str = true ->
  nth_error (runs_of_2 str) 0 <> Some MODE_01 ->
  parseObdString MODE_01 pids_getBy_pid Date_now str this =
    (Normal {| ts := Date_now (clock this); value := None; raw := str;
               byteGroups := Some (runs_of_2 str);
               error := Some (ModeNotSupported
                                (join [SPACE] (runs_of_2 str))
                                (nth_error (runs_of_2 str) 0)) |},
     {| _buffer := _buffer this; clock := S (clock this) |}, [])
  /\ write_all constants.OBD_OUTPUT_DELIMETER constants.MODE_01
       pids_getBy_pid Date_now
       [bytes_of "5512AB" ++ [13; 13]%N ++ bytes_of ">"; bytes_of "NODATA>"]
       new_OBDStreamParser =
     (Normal tt, {| _buffer := []; clock := 2 |},
      [line_break;
       data_event {| ts := Date_now 0; value := None; raw := lit "5512AB";
                     byteGroups := Some [lit "55"; lit "12"; lit "AB"];
                     error := Some (ModeNotSupported (lit "55 12 AB")
                                      (Some (lit "55"))) |};
       line_break;
       data_event {| ts := Date_now 1; value := None; raw := lit "NODATA";
                     byteGroups := Some [lit "NO"; lit "DA"; lit "TA"];
                     error := None |}]).
Proof.
  intros H Hmode. split; [|reflexivity].
  rewrite (parseObdString_hex MODE_01 JsValue pids_getBy_pid Date_now
             str this H).
  assert (Hne : str <> []) by (apply isHex_iff_digits in H; tauto).
  rewrite (head_runs_of_2 str Hne) in Hmode |- *.
  destruct (str_eqb (firstn 2 str) MODE_01) eqn:E.
  - apply str_eqb_eq in E. exfalso. apply Hmode. now rewrite E.
  - now rewrite Nat.add_1_r.
Qed.

Lemma unsupported_mode_witness :
  isHex (lit "5512AB") = true
  /\ nth_error (runs_of_2 (lit "5512AB")) 0 <> Some constants.MODE_01
  /\ parseObdString constants.MODE_01 samples.no_pids samples.ticking
       (lit "5512AB") new_OBDStreamParser =
     (Normal {| ts := 0; value := None; raw := lit "5512AB";
                byteGroups := Some [lit "55"; lit "12"; lit "AB"];
                error := Some (ModeNotSupported (lit "55 12 AB")
                                 (Some (lit "55"))) |},
      {| _buffer := []; clock := 1 |}, []).
Proof.
  assert (Hmode : nth_error (runs_of_2 (lit "5512AB")) 0
                  <> Some constants.MODE_01)
    by (vm_compute; discriminate).
  split; [reflexivity|]. split; [exact Hmode|].
  exact (proj1 (unsupported_mode constants.MODE_01 Z samples.no_pids
                  samples.ticking (lit "5512AB") new_OBDStreamParser
                  eq_refl Hmode)).
Defined.

(** C6. For a hexadecimal command whose first byte group is the mode
    marker: when the pid table has an entry for the second byte group, the
    converter of the entry is called with the byte groups at the indices
    from 2 up to, and without, the entry's byte count, as far as the
    command has them (all the byte groups after the first two when the
    command has no more byte groups than the byte count), and its answer
    becomes the value or the error of the result; when the table has no
    entry, the error of the result is the no-converter error of the pid. *)
Theorem converter_arguments
  (MODE_01 : jsstring) (JsValue : Type)
  (pids_getBy_pid : option jsstring -> option (PidInfo JsValue))
  (Date_now : nat -> Z) (str : jsstring) (this : OBDStreamParser) :
  isHex str = true ->
  nth_error (runs_of_2 str) 0 = Some MODE_01 ->
  match pids_getBy_pid (nth_error (runs_of_2 str) 1) with
  | Some pidInfo =>
      exists args,
        (forall i, nth_error args i =
                   if 2 + i <? byteCount pidInfo
                   then nth_error (runs_of_2 str) (2 + i) else None)
        /\ (length (runs_of_2 str) <= byteCount pidInfo ->
            args = skipn 2 (runs_of_2 str))
        /\ parseRealTime pids_getBy_pid (runs_of_2 str)
           = convertBytes pidInfo args
        /\ parseObdString MODE_01 pids_getBy_pid Date_now str this =
           (Normal
              match convertBytes pidInfo args with
              | Value v =>
                  {| ts := Date_now (clock this); value := v;
                     raw := str; byteGroups := Some (runs_of_2 str);
                     error := None |}
              | Failure e =>
                  {| ts := Date_now (clock this); value := None;
                     raw := str; byteGroups := Some (runs_of_2 str);
                     error := Some e |}
              end,
            {| _buffer := _buffer this; clock := S (clock this) |}, [])
  | None =>
      parseObdString MODE_01 pids_getBy_pid Date_now str this =
      (Normal {| ts := Date_now (clock this); value := None; raw := str;
                 byteGroups := Some (runs_of_2 str);
                 error := Some (NoConverter (nth_error (runs_of_2 str) 1)) |},
       {| _buffer := _buffer this; clock := S (clock this) |}, [])
  end.
Proof.
  intros H Hmode.
  assert (Hne : str <> []) by (apply isHex_iff_digits in H; tauto).
  assert (E : str_eqb (firstn 2 str) MODE_01 = true).
  { apply str_eqb_eq. rewrite (head_runs_of_2 str Hne) in Hmode. congruence. }
  rewrite (parseObdString_hex MODE_01 JsValue pids_getBy_pid Date_now
             str this H), E, Nat.add_1_r.
  unfold parseRealTime.
  destruct (pids_getBy_pid (nth_error (runs_of_2 str) 1)) as [pidInfo|].
  - exists (slice 2 (Z.of_nat (byteCount pidInfo)) (runs_of_2 str)).
    split; [intros i; apply slice_2_nth_error|].
    split; [apply slice_2_short|]. split; reflexivity.
  - reflexivity.
Qed.

Lemma converter_arguments_witness :
  isHex (lit "410C1B56") = true
  /\ nth_error (runs_of_2 (lit "410C1B56")) 0 = Some constants.MODE_01
  /\ exists args,
       (forall i, nth_error args i =
                  if 2 + i <? 4
                  then nth_error (runs_of_2 (lit "410C1B56")) (2 + i)
                  else None)
       /\ (length (runs_of_2 (lit "410C1B56")) <= 4 ->
           args = skipn 2 (runs_of_2 (lit "410C1B56")))
       /\ parseRealTime samples.one_pid (runs_of_2 (lit "410C1B56"))
          = Value (Some args)
       /\ parseObdString constants.MODE_01 samples.one_pid samples.ticking
            (lit "410C1B56") new_OBDStreamParser =
          (Normal {| ts := 0; value := Some args; raw := lit "410C1B56";
                     byteGroups := Some (runs_of_2 (lit "410C1B56"));
                     error := None |},
           {| _buffer := []; clock := 1 |}, []).
Proof.
  split; [reflexivity|]. split; [reflexivity|].
  destruct (converter_arguments constants.MODE_01 (list jsstring)
              samples.one_pid samples.ticking (lit "410C1B56")
              new_OBDStreamParser eq_refl eq_refl)
    as (args & Hnth & Hshort & Hreal & Hparse).
  exists args. split; [exact Hnth|]. split; [exact Hshort|].
  assert (Hargs : args = [lit "1B"; lit "56"]) by (apply Hshort; vm_compute; lia).
  subst args. split; [exact Hreal | exact Hparse].
Defined.

(** *** FrameSplitter *)



(** *** StreamAccumulator: chunks *)

(** C1, as the claim states it, fails where a chunk ends inside a
    multi-byte character: each chunk is decoded on its own.  The bytes C3,
    A9 and the prompt, whose only occurrence of the delimiter is the last
    byte, give the result of raw U+00E9 when written at once, and the
    result of raw U+FFFD, U+FFFD when written as C3 and then A9 and the
    prompt. *)
Lemma chunk_boundary_counterexample :
  only_at_end (bytes_of ">") (concat samples.cut_character)
  /\ only_at_end constants.OBD_OUTPUT_DELIMETER
       (Buffer_toString_utf8 (concat samples.cut_character))
  /\ map (@untimed Z)
       (results (emitted
          (write_all constants.OBD_OUTPUT_DELIMETER constants.MODE_01
             samples.no_pids samples.ticking
             samples.cut_character new_OBDStreamParser)))
     = [([65533; 65533]%N, Some [[65533; 65533]%N], None, None)]
  /\ map (@untimed Z)
       (results (emitted
          (_transform constants.OBD_OUTPUT_DELIMETER constants.MODE_01
             samples.no_pids samples.ticking
             (concat samples.cut_character) new_OBDStreamParser)))
     = [([233]%N, Some [[233]%N], None, None)]
  /\ map (@untimed Z)
       (results (emitted
          (write_all constants.OBD_OUTPUT_DELIMETER constants.MODE_01
             samples.no_pids samples.ticking
             samples.cut_character new_OBDStreamParser)))
     <> map (@untimed Z)
          (results (emitted
             (_transform constants.OBD_OUTPUT_DELIMETER constants.MODE_01
                samples.no_pids samples.ticking
                (concat samples.cut_character) new_OBDStreamParser))).
Proof.
  split; [apply only_at_end_indexOf; [reflexivity | vm_compute; lia]|].
  split; [apply only_at_end_indexOf; [reflexivity | vm_compute; lia]|].
  split; [reflexivity|]. split; [reflexivity|].
  vm_compute. discriminate.
Qed.

(** C1, amended.  For an output whose text holds the delimiter at its end
    and nowhere else, and any way of cutting its bytes into chunks none of
    which ends inside a multi-byte UTF-8 sequence (any way at all when the
    bytes are ASCII), writing the chunks one after the other to a parser
    with an empty buffer gives, timestamps aside, the results of writing
    the whole output at once. *)
Theorem chunk_boundary_invariance
  (OBD_OUTPUT_DELIMETER MODE_01 : jsstring) (JsValue : Type)
  (pids_getBy_pid : option jsstring -> option (PidInfo JsValue))
  (Date_now : nat -> Z)
  (chunks : list (list byte)) (this : OBDStreamParser) :
  Forall utf8_complete chunks ->
  only_at_end OBD_OUTPUT_DELIMETER (Buffer_toString_utf8 (concat chunks)) ->
  _buffer this = [] ->
  map (@untimed JsValue)
    (results (emitted
       (write_all OBD_OUTPUT_DELIMETER MODE_01 pids_getBy_pid Date_now
          chunks this)))
  = map (@untimed JsValue)
      (results (emitted
         (_transform OBD_OUTPUT_DELIMETER MODE_01 pids_getBy_pid Date_now
            (concat chunks) this))).
Proof.
  intros Hall Hend Hbuf.
  assert (Hprompt : hasPrompt OBD_OUTPUT_DELIMETER
            (_buffer this ++ Buffer_toString_utf8 (concat chunks)) = true).
  { rewrite Hbuf. apply hasPrompt_iff. now apply only_at_end_contains. }
  destruct (_transform_complete OBD_OUTPUT_DELIMETER MODE_01 JsValue
              pids_getBy_pid Date_now (concat chunks) this Hprompt)
    as (out & -> & Hout & _).
  unfold emitted at 2. cbn [snd results]. rewrite Hout.
  destruct (Buffer_toString_utf8 (concat chunks)) as [|x text] eqn:Htext.
  - (* no text at all: the delimiter is empty *)
    rewrite Hbuf. cbn [app].
    rewrite (extractOutputStrings_nil OBD_OUTPUT_DELIMETER). cbn.
    assert (Hsilent : Forall (fun c => Buffer_toString_utf8 c = []) chunks).
    { apply flat_map_nil. now rewrite <- Buffer_toString_utf8_concat. }
    destruct (write_all_silent OBD_OUTPUT_DELIMETER MODE_01 JsValue
                pids_getBy_pid Date_now chunks this Hsilent Hbuf)
      as (_ & _ & ->).
    reflexivity.
  - assert (Hno : ~ contains OBD_OUTPUT_DELIMETER (_buffer this)).
    { rewrite Hbuf, contains_nil_iff. intros ->.
      destruct Hend as [_ Hend]. specialize (Hend 0).
      simpl in Hend. discriminate Hend. now apply occurs_at_0. }
    rewrite <- Htext in *.
    assert (Hend' : only_at_end OBD_OUTPUT_DELIMETER
              (_buffer this ++ Buffer_toString_utf8 (concat chunks)))
      by now rewrite Hbuf.
    destruct (write_all_frames OBD_OUTPUT_DELIMETER MODE_01 JsValue
                pids_getBy_pid Date_now chunks this Hall Hno Hend')
      as (_ & _ & ->).
    apply each_emit_parsed_untimed.
Qed.

Lemma chunk_boundary_invariance_witness :
  Forall utf8_complete
    [bytes_of "41"; bytes_of "0C1B"; []; bytes_of "56" ++ [13; 13; 62]%N]
  /\ only_at_end constants.OBD_OUTPUT_DELIMETER
       (Buffer_toString_utf8
          (concat [bytes_of "41"; bytes_of "0C1B"; [];
                   bytes_of "56" ++ [13; 13; 62]%N]))
  /\ map (@untimed (list jsstring))
       (results (emitted
          (write_all constants.OBD_OUTPUT_DELIMETER constants.MODE_01
             samples.one_pid samples.ticking
             [bytes_of "41"; bytes_of "0C1B"; [];
              bytes_of "56" ++ [13; 13; 62]%N]
             new_OBDStreamParser)))
     = map (@untimed (list jsstring))
         (results (emitted
            (_transform constants.OBD_OUTPUT_DELIMETER constants.MODE_01
               samples.one_pid samples.ticking
               (concat [bytes_of "41"; bytes_of "0C1B"; [];
                        bytes_of "56" ++ [13; 13; 62]%N])
               new_OBDStreamParser))).
Proof.
  assert (Hall : Forall utf8_complete
            [bytes_of "41"; bytes_of "0C1B"; [];
             bytes_of "56" ++ [13; 13; 62]%N])
    by (repeat constructor).
  assert (Hend : only_at_end constants.OBD_OUTPUT_DELIMETER
            (Buffer_toString_utf8
               (concat [bytes_of "41"; bytes_of "0C1B"; [];
                        bytes_of "56" ++ [13; 13; 62]%N])))
    by (apply only_at_end_indexOf; [reflexivity | vm_compute; lia]).
  split; [exact Hall|]. split; [exact Hend|].
  exact (chunk_boundary_invariance constants.OBD_OUTPUT_DELIMETER
           constants.MODE_01 (list jsstring) samples.one_pid samples.ticking
           [bytes_of "41"; bytes_of "0C1B"; [];
            bytes_of "56" ++ [13; 13; 62]%N]
           new_OBDStreamParser Hall Hend eq_refl).
Defined.

(* ================================================================== *)
(** ** Further properties: the commands of a frame *)
(* ================================================================== *)

Section Commands.

Lemma replace_str_cons (pat rep : jsstring) (c : char) (s : jsstring) :
  replace_str pat rep (c :: s) =
  if starts_with pat (c :: s) then rep ++ skipn (length pat) (c :: s)
  else c :: replace_str pat rep s.
Proof. reflexivity. Qed.

Lemma In_skipn_list {A} (n : nat) (l : list A) (x : A) :
  In x (skipn n l) -> In x l.
Proof.
intros H. rewrite <- (firstn_skipn n l). apply in_or_app. now right.
Qed.

Lemma In_replace_str (pat s : jsstring) (x : char) :
  In x (replace_str pat [] s) -> In x s.
Proof.
induction s as [|c s IH].
- now rewrite replace_str_nil.
- rewrite replace_str_cons. destruct (starts_with pat (c :: s)).
  + apply In_skipn_list.
  + intros [->|H]; [now left | right; now apply IH].
Qed.

Lemma In_replace_pair_g (a b : char) (rep s : jsstring) (x : char) :
  In x (replace_pair_g a b rep s) -> In x s \/ In x rep.
Proof.
assert (H : (In x (replace_pair_g a b rep s) -> In x s \/ In x rep)
            /\ forall c, In x (replace_pair_g a b rep (c :: s)) ->
                         In x (c :: s) \/ In x rep); [|tauto].
induction s as [|d s [IH1 IH2]]; split.
- simpl. tauto.
- intros c. simpl. tauto.
- apply IH2.
- intros c. simpl replace_pair_g.
  destruct (N.eqb c a && N.eqb d b).
  + intros H. apply in_app_or in H. destruct H as [H|H]; [now right|].
    destruct (IH1 H) as [H'|H']; [left; simpl; tauto | now right].
  + intros [->|H]; [left; now left|].
    destruct (IH2 d H) as [H'|H']; [left; now right | now right].
Qed.

Lemma In_split_char (c : char) (s seg : jsstring) :
  In seg (split_char c s) ->
  ~ In c seg /\ forall x, In x seg -> In x s.
Proof.
revert seg; induction s as [|y s IH]; intros seg; simpl.
- intros [<-|[]]. simpl. tauto.
- destruct (N.eqb_spec y c) as [->|Hy].
  + intros [<-|H]; [simpl; tauto|].
    destruct (IH seg H) as [H1 H2]. split; [exact H1|].
    intros x Hx. right. now apply H2.
  + destruct (split_char c s) as [|h r] eqn:E.
    * intros [<-|[]]. simpl. split; [intuition congruence | tauto].
    * intros [<-|H].
      -- destruct (IH h (or_introl eq_refl)) as [H1 H2]. split.
         ++ simpl. intros [Hc|Hc]; [congruence | tauto].
         ++ intros x [->|Hx]; [now left | right; now apply H2].
      -- destruct (IH seg (or_intror H)) as [H1 H2]. split; [exact H1|].
         intros x Hx. right. now apply H2.
Qed.

(** [trim_start] takes white space off the front, and only that. *)
Lemma trim_start_suffix (s : jsstring) :
  exists pre, s = pre ++ trim_start s
              /\ Forall (fun c => is_trim_space c = true) pre.
Proof.
induction s as [|c s (pre & IH1 & IH2)]; simpl.
- exists []. split; [reflexivity | constructor].
- destruct (is_trim_space c) eqn:E.
  + exists (c :: pre). split; [simpl; now f_equal | now constructor].
  + exists []. split; [reflexivity | constructor].
Qed.

Lemma trim_start_head (s : jsstring) (c : char) (t : jsstring) :
  trim_start s = c :: t -> is_trim_space c = false.
Proof.
induction s as [|y s IH]; simpl; [discriminate|].
destruct (is_trim_space y) eqn:E; [exact IH|]. now intros [= <- _].
Qed.

Lemma trim_end_prefix (s : jsstring) :
  exists post, s = trim_end s ++ post
               /\ Forall (fun c => is_trim_space c = true) post.
Proof.
unfold trim_end. destruct (trim_start_suffix (rev s)) as (pre & H1 & H2).
exists (rev pre). split.
- rewrite <- (rev_involutive s) at 1. rewrite H1 at 1. apply rev_app_distr.
- apply Forall_rev. exact H2.
Qed.

Lemma trim_end_last (s t : jsstring) (c : char) :
  trim_end s = t ++ [c] -> is_trim_space c = false.
Proof.
unfold trim_end. intros H.
apply (f_equal (@rev char)) in H. rewrite rev_involutive, rev_app_distr in H.
simpl in H. exact (trim_start_head _ _ _ H).
Qed.

Lemma In_trim (s : jsstring) (x : char) : In x (trim s) -> In x s.
Proof.
unfold trim. intros H.
destruct (trim_end_prefix (trim_start s)) as (post & H1 & _).
destruct (trim_start_suffix s) as (pre & H2 & _).
rewrite H2, H1. apply in_or_app. right. apply in_or_app. now left.
Qed.

(** A trimmed string that is not empty starts and ends with characters
    that are not white space. *)
Lemma trim_ends (s : jsstring) :
  trim s <> [] ->
  is_trim_space (hd 0%N (trim s)) = false
  /\ is_trim_space (last (trim s) 0%N) = false.
Proof.
intros Hne. split.
- unfold trim in *.
  destruct (trim_end_prefix (trim_start s)) as (post & H1 & _).
  destruct (trim_end (trim_start s)) as [|c t] eqn:E; [congruence|].
  simpl. simpl in H1. exact (trim_start_head _ _ _ H1).
- destruct (exists_last Hne) as (t & c & E). rewrite E, last_last.
  unfold trim in E. exact (trim_end_last _ _ _ E).
Qed.

Lemma trim_space_terminator (c : char) :
  line_terminator c -> is_trim_space c = true.
Proof.
unfold line_terminator. simpl.
intros [<-|[<-|[<-|[<-|[]]]]]; reflexivity.
Qed.

(** What a command is made of. *)
Lemma command_characters (delimiter frame command : jsstring) :
  In command (extractOutputStrings delimiter frame) ->
  command <> []
  /\ (forall x, In x command ->
        In x frame /\ x <> CR /\ x <> LF /\ x <> SPACE)
  /\ is_trim_space (hd 0%N command) = false
  /\ is_trim_space (last command 0%N) = false.
Proof.
rewrite extractOutputStrings_steps. intros H.
apply filter_In in H. destruct H as [H Hne]. apply truthy_iff in Hne.
apply in_map_iff in H. destruct H as (seg & <- & Hseg).
apply In_split_char in Hseg. destruct Hseg as [Hcr Hsub].
split; [exact Hne|]. split; [|now apply trim_ends].
intros x Hx. unfold normalised in Hx. apply In_trim in Hx.
apply filter_In in Hx. destruct Hx as [Hx Hsp].
apply In_replace_str in Hx.
assert (Hxcr : x <> CR) by (intros ->; contradiction).
pose proof (Hsub x Hx) as Hu. apply In_replace_pair_g in Hu.
destruct Hu as [Hu|[Hu|[]]]; [|congruence].
apply filter_In in Hu. destruct Hu as [Hu Hlf].
repeat split.
- exact Hu.
- exact Hxcr.
- intros ->. discriminate Hlf.
- intros ->. discriminate Hsp.
Qed.

(** The byte groups of a command are never null. *)
Lemma command_byte_groups (delimiter frame command : jsstring) :
  In command (extractOutputStrings delimiter frame) ->
  exists group groups, getByteGroupings command = Some (group :: groups).
Proof.
intros H. destruct (command_characters _ _ _ H) as (Hne & Hchars & Hhd & _).
destruct command as [|c t]; [congruence|]. simpl in Hhd.
assert (Hdot : dot c = true).
{ apply dot_iff. intros Hc. apply trim_space_terminator in Hc. congruence. }
assert (Hsp : N.eqb c SPACE = false).
{ apply N.eqb_neq. apply (Hchars c). now left. }
unfold getByteGroupings, match_dot_1_2_g. simpl replace_char_g. rewrite Hsp.
simpl matches_dot_1_2. rewrite Hdot.
destruct (replace_char_g SPACE [] t) as [|b t']; [now eexists _, _|].
destruct (dot b); now eexists _, _.
Qed.

End Commands.

(* ================================================================== *)
(** ** Further properties: runs of the stream *)
(* ================================================================== *)

Section Streams.

Variable OBD_OUTPUT_DELIMETER : jsstring.
Variable MODE_01 : jsstring.
Variable JsValue : Type.
Variable pids_getBy_pid : option jsstring -> option (PidInfo JsValue).
Variable Date_now : nat -> Z.

Local Abbreviation parse := (parseObdString MODE_01 pids_getBy_pid Date_now).
Local Abbreviation emit_one := (emit_parsed MODE_01 pids_getBy_pid Date_now).
Local Abbreviation transform :=
  (_transform OBD_OUTPUT_DELIMETER MODE_01 pids_getBy_pid Date_now).
Local Abbreviation write :=
  (write_all OBD_OUTPUT_DELIMETER MODE_01 pids_getBy_pid Date_now).
Local Abbreviation extract := (extractOutputStrings OBD_OUTPUT_DELIMETER).
Local Abbreviation prompt := (hasPrompt OBD_OUTPUT_DELIMETER).

(** The fields of a result. *)
Lemma parseObdString_fields str this r :
  outcome (parse str this) = Normal r ->
  ts r = Date_now (clock this)
  /\ raw r = str
  /\ byteGroups r = getByteGroupings str
  /\ ((isHex str = false /\ value r = None /\ error r = None)
      \/ (isHex str = true
          /\ byteGroups r = Some (runs_of_2 str)
          /\ (error r = None \/ (value r = None /\ error r <> None)))).
Proof.
destruct (isHex str) eqn:H.
- rewrite (parseObdString_hex MODE_01 JsValue pids_getBy_pid Date_now
             str this H).
  rewrite (getByteGroupings_hex str H). unfold outcome; cbn [fst].
  destruct (str_eqb (firstn 2 str) MODE_01);
    [destruct (parseRealTime pids_getBy_pid (runs_of_2 str))|];
    intros [= <-]; cbn; repeat split; right; repeat split;
    (now left) || (right; split; [reflexivity | discriminate]).
- rewrite (parseObdString_generic MODE_01 JsValue pids_getBy_pid Date_now
             str this H).
  unfold outcome; cbn [fst]. intros [= <-]. cbn. repeat split. now left.
Qed.

(** The results of the commands of a frame, one by one. *)
Lemma each_emit_parsed_shape cmds :
  forall this,
  exists rs,
    each cmds emit_one this =
      (Normal tt,
       {| _buffer := _buffer this; clock := clock this + length cmds |},
       map (@data_event JsValue) rs)
    /\ map (@raw JsValue) rs = cmds
    /\ forall i r, nth_error rs i = Some r ->
         outcome (parse (raw r)
                    {| _buffer := _buffer this; clock := clock this + i |})
         = Normal r.
Proof.
induction cmds as [|c cmds IH]; intros this.
- exists []. simpl. unfold ret. rewrite Nat.add_0_r. destruct this.
  repeat split. intros [|i] r; discriminate.
- destruct (emit_parsed_run MODE_01 JsValue pids_getBy_pid Date_now c this)
    as (r & Hrun & Hr).
  destruct (IH {| _buffer := _buffer this; clock := clock this + 1 |})
    as (rs & Hrs & Hraw & Hnth).
  assert (Hc : raw r = c).
  { apply (parseObdString_fields c this r Hr). }
  exists (r :: rs). simpl each. unfold bind at 1. rewrite Hrun, Hrs.
  cbn [_buffer clock]. repeat split.
  + cbn [app map length]. do 2 f_equal. f_equal. lia.
  + cbn [map]. now rewrite Hc, Hraw.
  + intros [|i] r' Hi.
    * injection Hi as <-. rewrite Hc, Nat.add_0_r.
      destruct this; exact Hr.
    * cbn [nth_error] in Hi. specialize (Hnth i r' Hi).
      cbn [_buffer clock] in Hnth.
      now replace (clock this + S i) with (clock this + 1 + i) by lia.
Qed.

Lemma _transform_normal data this :
  outcome (transform data this) = Normal tt.
Proof.
destruct (prompt (_buffer this ++ Buffer_toString_utf8 data)) eqn:Hp.
- destruct (_transform_complete OBD_OUTPUT_DELIMETER MODE_01 JsValue
              pids_getBy_pid Date_now data this Hp) as (out & -> & _).
  reflexivity.
- now rewrite (_transform_pending OBD_OUTPUT_DELIMETER MODE_01 JsValue
                 pids_getBy_pid Date_now data this Hp).
Qed.

Lemma write_all_normal chunks :
  forall this, outcome (write chunks this) = Normal tt.
Proof.
induction chunks as [|c chunks IH]; intros this; [reflexivity|].
simpl write_all. unfold bind.
pose proof (_transform_normal c this) as Hc.
destruct (transform c this) as [[o w] out]. unfold outcome in Hc.
cbn [fst] in Hc. subst o.
specialize (IH w). destruct (write chunks w) as [[o' w'] out'].
exact IH.
Qed.

(** Writing one list of chunks and then another. *)
Lemma write_all_app_run chunks1 chunks2 :
  forall this,
  write (chunks1 ++ chunks2) this =
  (outcome (write chunks2 (after (write chunks1 this))),
   after (write chunks2 (after (write chunks1 this))),
   emitted (write chunks1 this)
   ++ emitted (write chunks2 (after (write chunks1 this)))).
Proof.
induction chunks1 as [|c chunks1 IH]; intros this.
- cbn. now destruct (write chunks2 this) as [[o w] out].
- cbn [app write_all]. unfold bind.
  pose proof (_transform_normal c this) as Hc.
  destruct (transform c this) as [[o w] out]. unfold outcome in Hc.
  cbn [fst] in Hc. subst o.
  rewrite (IH w).
  pose proof (write_all_normal chunks1 w) as Hn.
  destruct (write chunks1 w) as [[o1 w1] out1].
  unfold outcome in Hn. cbn [fst] in Hn. subst o1.
  unfold outcome, after, emitted. cbn [fst snd].
  now rewrite app_assoc.
Qed.

(** A chunk is kept as long as the delimiter has not come. *)
Lemma write_all_pending chunks :
  forall this,
  ~ contains OBD_OUTPUT_DELIMETER
      (_buffer this ++ flat_map Buffer_toString_utf8 chunks) ->
  write chunks this =
  (Normal tt,
   {| _buffer := _buffer this ++ flat_map Buffer_toString_utf8 chunks;
      clock := clock this |},
   []).
Proof.
induction chunks as [|c chunks IH]; intros this H.
- cbn. rewrite app_nil_r. now destruct this.
- cbn [flat_map] in H |- *. rewrite app_assoc in H.
  assert (Hp : prompt (_buffer this ++ Buffer_toString_utf8 c) = false).
  { apply hasPrompt_false_iff. intros [i Hi]. apply H. exists i.
    now apply occurs_at_app_r. }
  cbn [write_all]. unfold bind.
  rewrite (_transform_pending OBD_OUTPUT_DELIMETER MODE_01 JsValue
             pids_getBy_pid Date_now c this Hp).
  rewrite (IH {| _buffer := _buffer this ++ Buffer_toString_utf8 c;
                 clock := clock this |} H).
  cbn [_buffer clock app]. now rewrite app_assoc.
Qed.

(** Between two writes the buffer holds no delimiter. *)
Lemma _transform_buffer_clean data this :
  OBD_OUTPUT_DELIMETER <> [] ->
  ~ contains OBD_OUTPUT_DELIMETER (_buffer (after (transform data this))).
Proof.
intros Hd.
destruct (prompt (_buffer this ++ Buffer_toString_utf8 data)) eqn:Hp.
- destruct (_transform_complete OBD_OUTPUT_DELIMETER MODE_01 JsValue
              pids_getBy_pid Date_now data this Hp) as (out & -> & _).
  unfold after. cbn. now rewrite contains_nil_iff.
- rewrite (_transform_pending OBD_OUTPUT_DELIMETER MODE_01 JsValue
             pids_getBy_pid Date_now data this Hp).
  unfold after. cbn. now apply hasPrompt_false_iff.
Qed.

Lemma write_all_buffer_clean chunks :
  forall this,
  OBD_OUTPUT_DELIMETER <> [] ->
  ~ contains OBD_OUTPUT_DELIMETER (_buffer this) ->
  ~ contains OBD_OUTPUT_DELIMETER (_buffer (after (write chunks this))).
Proof.
induction chunks as [|c chunks IH]; intros this Hd H; [exact H|].
cbn [write_all]. unfold bind.
pose proof (_transform_normal c this) as Hc.
pose proof (_transform_buffer_clean c this Hd) as Hb.
destruct (transform c this) as [[o w] out].
unfold outcome, after in Hc, Hb. cbn [fst snd] in Hc, Hb. subst o.
specialize (IH w Hd Hb). destruct (write chunks w) as [[o' w'] out'].
exact IH.
Qed.

End Streams.

(* ================================================================== *)
(** ** Further properties of the parser *)
(* ================================================================== *)

Lemma occurs_at_app_l (pat s t : jsstring) (i : nat) :
  occurs_at pat s i -> occurs_at pat (t ++ s) (length t + i).
Proof.
intros (pre & post & -> & <-). exists (t ++ pre), post.
split; [now rewrite <- app_assoc | apply length_app].
Qed.

(** X1. [hasPrompt] is true exactly when the delimiter occurs in the text;
    a text shorter than the delimiter has no prompt; and a text that has
    the prompt keeps it whatever is put before or after it. *)
Theorem hasPrompt_correct (delimiter data : jsstring) :
  (hasPrompt delimiter data = true <-> contains delimiter data)
  /\ (length data < length delimiter -> hasPrompt delimiter data = false)
  /\ (hasPrompt delimiter data = true ->
      forall before behind,
        hasPrompt delimiter (before ++ data ++ behind) = true).
Proof.
split; [apply hasPrompt_iff|]. split.
- intros Hlen. apply hasPrompt_false_iff. intros [i Hi].
  apply occurs_at_bound in Hi. lia.
- intros H before behind. apply hasPrompt_iff in H. destruct H as [i Hi].
  apply hasPrompt_iff. exists (length before + i).
  apply occurs_at_app_l. now apply occurs_at_app_r.
Qed.

Lemma hasPrompt_correct_witness :
  hasPrompt (lit ">") (lit "410C>") = true
  /\ hasPrompt (lit ">") (lit "NO" ++ lit "410C>" ++ lit "DATA") = true.
Proof.
split; [reflexivity|].
exact (proj2 (proj2 (hasPrompt_correct (lit ">") (lit "410C>")))
         eq_refl (lit "NO") (lit "DATA")).
Defined.

(** X2. Every command [extractOutputStrings] returns is not empty, is made
    of characters of the frame, holds no carriage return, no line feed and
    no space, starts and ends with a character that is not white space,
    and has byte groups: [getByteGroupings] does not return null on it. *)
Theorem commands_wellformed (delimiter frame command : jsstring) :
  In command (extractOutputStrings delimiter frame) ->
  command <> []
  /\ (forall x, In x command ->
        In x frame /\ x <> CR /\ x <> LF /\ x <> SPACE)
  /\ is_trim_space (hd 0%N command) = false
  /\ is_trim_space (last command 0%N) = false
  /\ exists group groups, getByteGroupings command = Some (group :: groups).
Proof.
intros H.
destruct (command_characters delimiter frame command H)
  as (H1 & H2 & H3 & H4).
repeat (split; [assumption|]).
exact (command_byte_groups delimiter frame command H).
Qed.

Lemma commands_wellformed_witness :
  In (lit "41057E")
     (extractOutputStrings constants.OBD_OUTPUT_DELIMETER
        samples.two_responses)
  /\ lit "41057E" <> []
  /\ exists group groups,
       getByteGroupings (lit "41057E") = Some (group :: groups).
Proof.
assert (Hin : In (lit "41057E")
                (extractOutputStrings constants.OBD_OUTPUT_DELIMETER
                   samples.two_responses))
  by (vm_compute; tauto).
destruct (commands_wellformed constants.OBD_OUTPUT_DELIMETER
            samples.two_responses (lit "41057E") Hin)
  as (H1 & _ & _ & _ & H5).
split; [exact Hin|]. split; [exact H1 | exact H5].
Defined.

(** X3. [parseObdString] never throws, whatever the string: it returns a
    result, reads the clock once for its timestamp, leaves the buffer
    alone and emits nothing.  The result holds the string as [raw] and
    its byte groups; a string that is not hexadecimal has neither value
    nor error; a hexadecimal one has its runs of two characters as byte
    groups, not null, and never both a value and an error (it has neither
    when its converter returns undefined or null). *)
Theorem parseObdString_total
  (MODE_01 : jsstring) (JsValue : Type)
  (pids_getBy_pid : option jsstring -> option (PidInfo JsValue))
  (Date_now : nat -> Z) (str : jsstring) (this : OBDStreamParser) :
  exists r,
    parseObdString MODE_01 pids_getBy_pid Date_now str this =
      (Normal r, {| _buffer := _buffer this; clock := S (clock this) |}, [])
    /\ ts r = Date_now (clock this)
    /\ raw r = str
    /\ byteGroups r = getByteGroupings str
    /\ ((isHex str = false /\ value r = None /\ error r = None)
        \/ (isHex str = true
            /\ byteGroups r = Some (runs_of_2 str)
            /\ (error r = None \/ (value r = None /\ error r <> None)))).
Proof.
destruct (parseObdString_returns MODE_01 JsValue pids_getBy_pid Date_now
            str this) as (r & Hr & _).
exists r. split; [now rewrite Hr, Nat.add_1_r|].
apply (parseObdString_fields MODE_01 JsValue pids_getBy_pid Date_now
         str this r).
now rewrite Hr.
Qed.

(** X4. A write that brings the delimiter emits the line break first and
    then one data event for each command of the buffer, in the order of
    the commands: the i-th result holds the i-th command as [raw], its
    byte groups (never null) and the i-th reading of the clock made during
    the write.  The buffer is reset and the clock has been read once for
    each command. *)
Theorem complete_write_events
  (OBD_OUTPUT_DELIMETER MODE_01 : jsstring) (JsValue : Type)
  (pids_getBy_pid : option jsstring -> option (PidInfo JsValue))
  (Date_now : nat -> Z) (data : list byte) (this : OBDStreamParser) :
  contains OBD_OUTPUT_DELIMETER (_buffer this ++ Buffer_toString_utf8 data) ->
  exists rs,
    _transform OBD_OUTPUT_DELIMETER MODE_01 pids_getBy_pid Date_now data this
    = (Normal tt,
       {| _buffer := []; clock := clock this + length rs |},
       line_break :: map (@data_event JsValue) rs)
    /\ map (@raw JsValue) rs =
       extractOutputStrings OBD_OUTPUT_DELIMETER
         (_buffer this ++ Buffer_toString_utf8 data)
    /\ forall i r, nth_error rs i = Some r ->
         ts r = Date_now (clock this + i)
         /\ byteGroups r = getByteGroupings (raw r)
         /\ byteGroups r <> None.
Proof.
intros H. apply hasPrompt_iff in H.
destruct (_transform_complete OBD_OUTPUT_DELIMETER MODE_01 JsValue
            pids_getBy_pid Date_now data this H) as (out & Hrun & Hout & _).
set (buf := _buffer this ++ Buffer_toString_utf8 data) in *.
destruct (each_emit_parsed_shape MODE_01 JsValue pids_getBy_pid Date_now
            (extractOutputStrings OBD_OUTPUT_DELIMETER buf)
            {| _buffer := buf; clock := clock this |})
  as (rs & Hrs & Hraw & Hnth).
rewrite Hrs in Hout. unfold emitted in Hout. cbn [snd] in Hout. subst out.
exists rs. split; [|split; [exact Hraw|]].
- rewrite Hrun. do 2 f_equal. f_equal.
  now rewrite <- Hraw, length_map.
- intros i r Hi. specialize (Hnth i r Hi). cbn [_buffer clock] in Hnth.
  destruct (parseObdString_fields MODE_01 JsValue pids_getBy_pid Date_now
              _ _ r Hnth) as (Hts & _ & Hgroups & _).
  split; [exact Hts|]. split; [exact Hgroups|].
  assert (Hin : In (raw r) (extractOutputStrings OBD_OUTPUT_DELIMETER buf)).
  { rewrite <- Hraw. apply in_map. eapply nth_error_In. exact Hi. }
  destruct (command_byte_groups _ _ _ Hin) as (g & gs & Hg).
  rewrite Hgroups, Hg. discriminate.
Qed.

Lemma complete_write_events_witness :
  contains constants.OBD_OUTPUT_DELIMETER
    (_buffer {| _buffer := lit "41"; clock := 7 |}
     ++ Buffer_toString_utf8 (bytes_of "0C1B56" ++ [13; 13; 62]%N))
  /\ exists rs,
       _transform constants.OBD_OUTPUT_DELIMETER constants.MODE_01
         samples.no_pids samples.ticking
         (bytes_of "0C1B56" ++ [13; 13; 62]%N)
         {| _buffer := lit "41"; clock := 7 |}
       = (Normal tt, {| _buffer := []; clock := 7 + length rs |},
          line_break :: map (@data_event Z) rs)
       /\ map (@raw Z) rs = [lit "410C1B56"].
Proof.
assert (H : contains constants.OBD_OUTPUT_DELIMETER
              (_buffer {| _buffer := lit "41"; clock := 7 |}
               ++ Buffer_toString_utf8 (bytes_of "0C1B56" ++ [13; 13; 62]%N)))
  by (apply hasPrompt_iff; reflexivity).
split; [exact H|].
destruct (complete_write_events constants.OBD_OUTPUT_DELIMETER
            constants.MODE_01 Z samples.no_pids samples.ticking
            (bytes_of "0C1B56" ++ [13; 13; 62]%N)
            {| _buffer := lit "41"; clock := 7 |} H)
  as (rs & Hrun & Hraw & _).
exists rs. split; [exact Hrun | exact Hraw].
Defined.

(** X5. As long as the text written so far holds no delimiter, nothing is
    emitted, however many chunks there are, and the buffer holds all of
    the text; when the stream then ends, [_flush] drops that text and
    still nothing is emitted. *)
Theorem unterminated_output_dropped
  (OBD_OUTPUT_DELIMETER MODE_01 : jsstring) (JsValue : Type)
  (pids_getBy_pid : option jsstring -> option (PidInfo JsValue))
  (Date_now : nat -> Z)
  (chunks : list (list byte)) (this : OBDStreamParser) :
  ~ contains OBD_OUTPUT_DELIMETER
      (_buffer this ++ flat_map Buffer_toString_utf8 chunks) ->
  write_all OBD_OUTPUT_DELIMETER MODE_01 pids_getBy_pid Date_now chunks this
  = (Normal tt,
     {| _buffer := _buffer this ++ flat_map Buffer_toString_utf8 chunks;
        clock := clock this |},
     [])
  /\ bind (write_all OBD_OUTPUT_DELIMETER MODE_01 pids_getBy_pid Date_now
             chunks)
          (fun _ => _flush JsValue) this
     = (Normal tt, {| _buffer := []; clock := clock this |}, []).
Proof.
intros H.
pose proof (write_all_pending OBD_OUTPUT_DELIMETER MODE_01 JsValue
              pids_getBy_pid Date_now chunks this H) as Hrun.
split; [exact Hrun|]. unfold bind. now rewrite Hrun.
Qed.

Lemma unterminated_output_dropped_witness :
  ~ contains constants.OBD_OUTPUT_DELIMETER
      (_buffer new_OBDStreamParser
       ++ flat_map Buffer_toString_utf8 [bytes_of "41"; bytes_of "0C1B"])
  /\ write_all constants.OBD_OUTPUT_DELIMETER constants.MODE_01
       samples.no_pids samples.ticking
       [bytes_of "41"; bytes_of "0C1B"] new_OBDStreamParser
     = (Normal tt, {| _buffer := lit "410C1B"; clock := 0 |}, []).
Proof.
assert (H : ~ contains constants.OBD_OUTPUT_DELIMETER
              (_buffer new_OBDStreamParser
               ++ flat_map Buffer_toString_utf8
                    [bytes_of "41"; bytes_of "0C1B"]))
  by (apply hasPrompt_false_iff; reflexivity).
split; [exact H|].
exact (proj1 (unterminated_output_dropped constants.OBD_OUTPUT_DELIMETER
                constants.MODE_01 Z samples.no_pids samples.ticking
                [bytes_of "41"; bytes_of "0C1B"] new_OBDStreamParser H)).
Defined.

(** X6. Writes compose: writing the chunks of one list and then those of
    another returns, leaves the parser the second list leaves when written
    to what the first left, and emits the events of the first list
    followed by those of the second. *)
Theorem write_all_composes
  (OBD_OUTPUT_DELIMETER MODE_01 : jsstring) (JsValue : Type)
  (pids_getBy_pid : option jsstring -> option (PidInfo JsValue))
  (Date_now : nat -> Z)
  (chunks1 chunks2 : list (list byte)) (this : OBDStreamParser) :
  write_all OBD_OUTPUT_DELIMETER MODE_01 pids_getBy_pid Date_now
    (chunks1 ++ chunks2) this
  = (Normal tt,
     after (write_all OBD_OUTPUT_DELIMETER MODE_01 pids_getBy_pid Date_now
              chunks2
              (after (write_all OBD_OUTPUT_DELIMETER MODE_01 pids_getBy_pid
                        Date_now chunks1 this))),
     emitted (write_all OBD_OUTPUT_DELIMETER MODE_01 pids_getBy_pid Date_now
                chunks1 this)
     ++ emitted (write_all OBD_OUTPUT_DELIMETER MODE_01 pids_getBy_pid
                   Date_now chunks2
                   (after (write_all OBD_OUTPUT_DELIMETER MODE_01
                             pids_getBy_pid Date_now chunks1 this)))).
Proof.
rewrite (write_all_app_run OBD_OUTPUT_DELIMETER MODE_01 JsValue
           pids_getBy_pid Date_now chunks1 chunks2 this).
now rewrite (write_all_normal OBD_OUTPUT_DELIMETER MODE_01 JsValue
               pids_getBy_pid Date_now chunks2).
Qed.

(** X7. With a delimiter that is not the empty string, the buffer holds no
    delimiter after a write, whatever the parser held before and whatever
    is written: what is kept between two writes is always the start of an
    output that is not complete. *)
Theorem buffer_holds_no_delimiter
  (OBD_OUTPUT_DELIMETER MODE_01 : jsstring) (JsValue : Type)
  (pids_getBy_pid : option jsstring -> option (PidInfo JsValue))
  (Date_now : nat -> Z)
  (chunk : list byte) (chunks : list (list byte)) (this : OBDStreamParser) :
  OBD_OUTPUT_DELIMETER <> [] ->
  ~ contains OBD_OUTPUT_DELIMETER
      (_buffer (after (write_all OBD_OUTPUT_DELIMETER MODE_01 pids_getBy_pid
                         Date_now (chunk :: chunks) this))).
Proof.
intros Hd. cbn [write_all]. unfold bind.
pose proof (_transform_normal OBD_OUTPUT_DELIMETER MODE_01 JsValue
              pids_getBy_pid Date_now chunk this) as Hc.
pose proof (_transform_buffer_clean OBD_OUTPUT_DELIMETER MODE_01 JsValue
              pids_getBy_pid Date_now chunk this Hd) as Hb.
destruct (_transform OBD_OUTPUT_DELIMETER MODE_01 pids_getBy_pid Date_now
            chunk this) as [[o w] out].
unfold outcome, after in Hc, Hb. cbn [fst snd] in Hc, Hb. subst o.
pose proof (write_all_buffer_clean OBD_OUTPUT_DELIMETER MODE_01 JsValue
              pids_getBy_pid Date_now chunks w Hd Hb) as H.
destruct (write_all OBD_OUTPUT_DELIMETER MODE_01 pids_getBy_pid Date_now
            chunks w) as [[o' w'] out'].
exact H.
Qed.

Lemma buffer_holds_no_delimiter_witness :
  constants.OBD_OUTPUT_DELIMETER <> []
  /\ ~ contains constants.OBD_OUTPUT_DELIMETER
         (_buffer (after (write_all constants.OBD_OUTPUT_DELIMETER
                            constants.MODE_01 samples.no_pids samples.ticking
                            [bytes_of "41>0"; bytes_of "C"]
                            {| _buffer := lit ">>"; clock := 0 |}))).
Proof.
assert (Hd : constants.OBD_OUTPUT_DELIMETER <> []) by discriminate.
split; [exact Hd|].
exact (buffer_holds_no_delimiter constants.OBD_OUTPUT_DELIMETER
         constants.MODE_01 Z samples.no_pids samples.ticking
         (bytes_of "41>0") [bytes_of "C"]
         {| _buffer := lit ">>"; clock := 0 |} Hd).
Defined.

(** X8. Two outputs written one after the other, each cut into chunks in
    any way that does not cut a multi-byte character, give the results of
    the first output followed by those of the second, timestamps aside,
    and leave the buffer empty. *)
Theorem successive_outputs
  (OBD_OUTPUT_DELIMETER MODE_01 : jsstring) (JsValue : Type)
  (pids_getBy_pid : option jsstring -> option (PidInfo JsValue))
  (Date_now : nat -> Z)
  (chunks1 chunks2 : list (list byte)) (this : OBDStreamParser) :
  OBD_OUTPUT_DELIMETER <> [] ->
  Forall utf8_complete chunks1 ->
  Forall utf8_complete chunks2 ->
  only_at_end OBD_OUTPUT_DELIMETER (Buffer_toString_utf8 (concat chunks1)) ->
  only_at_end OBD_OUTPUT_DELIMETER (Buffer_toString_utf8 (concat chunks2)) ->
  _buffer this = [] ->
  map (@untimed JsValue)
    (results (emitted
       (write_all OBD_OUTPUT_DELIMETER MODE_01 pids_getBy_pid Date_now
          (chunks1 ++ chunks2) this)))
  = map (@untimed JsValue)
      (results (emitted
         (_transform OBD_OUTPUT_DELIMETER MODE_01 pids_getBy_pid Date_now
            (concat chunks1) this)))
    ++ map (@untimed JsValue)
         (results (emitted
            (_transform OBD_OUTPUT_DELIMETER MODE_01 pids_getBy_pid Date_now
               (concat chunks2) this)))
  /\ _buffer (after (write_all OBD_OUTPUT_DELIMETER MODE_01 pids_getBy_pid
                       Date_now (chunks1 ++ chunks2) this)) = [].
Proof.
intros Hd Hall1 Hall2 Hend1 Hend2 Hbuf.
assert (Hnil : ~ contains OBD_OUTPUT_DELIMETER []) by now rewrite contains_nil_iff.
assert (Hone : forall chunks w,
  Forall utf8_complete chunks ->
  only_at_end OBD_OUTPUT_DELIMETER (Buffer_toString_utf8 (concat chunks)) ->
  _buffer w = [] ->
  _buffer (after (write_all OBD_OUTPUT_DELIMETER MODE_01 pids_getBy_pid
                    Date_now chunks w)) = []
  /\ map (@untimed JsValue)
       (results (emitted (write_all OBD_OUTPUT_DELIMETER MODE_01
                            pids_getBy_pid Date_now chunks w)))
     = map (@untimed JsValue)
         (results (emitted (_transform OBD_OUTPUT_DELIMETER MODE_01
                              pids_getBy_pid Date_now (concat chunks) this)))).
{ intros chunks w Hall Hend Hw.
  assert (Hno : ~ contains OBD_OUTPUT_DELIMETER (_buffer w)) by now rewrite Hw.
  assert (Hend' : only_at_end OBD_OUTPUT_DELIMETER
            (_buffer w ++ Buffer_toString_utf8 (concat chunks)))
    by now rewrite Hw.
  destruct (write_all_frames OBD_OUTPUT_DELIMETER MODE_01 JsValue
              pids_getBy_pid Date_now chunks w Hall Hno Hend')
    as (_ & Hafter & ->).
  split; [exact Hafter|].
  assert (Hp : hasPrompt OBD_OUTPUT_DELIMETER
            (_buffer this ++ Buffer_toString_utf8 (concat chunks)) = true).
  { rewrite Hbuf. apply hasPrompt_iff. now apply only_at_end_contains. }
  destruct (_transform_complete OBD_OUTPUT_DELIMETER MODE_01 JsValue
              pids_getBy_pid Date_now (concat chunks) this Hp)
    as (out & -> & Hout & _).
  unfold emitted at 2. cbn [snd results]. rewrite Hout, Hw, Hbuf.
  apply each_emit_parsed_untimed. }
rewrite (write_all_app_run OBD_OUTPUT_DELIMETER MODE_01 JsValue
           pids_getBy_pid Date_now chunks1 chunks2 this).
unfold emitted at 1, after at 1. cbn [fst snd].
destruct (Hone chunks1 this Hall1 Hend1 Hbuf) as [Hafter1 Hres1].
destruct (Hone chunks2 _ Hall2 Hend2 Hafter1) as [Hafter2 Hres2].
split; [|exact Hafter2].
now rewrite results_app, map_app, Hres1, Hres2.
Qed.

Lemma successive_outputs_witness :
  constants.OBD_OUTPUT_DELIMETER <> []
  /\ map (@untimed (list jsstring))
       (results (emitted
          (write_all constants.OBD_OUTPUT_DELIMETER constants.MODE_01
             samples.one_pid samples.ticking
             ([bytes_of "410C"; bytes_of "1B56>"] ++ [bytes_of "NO"; bytes_of "DATA>"])
             new_OBDStreamParser)))
     = map (@untimed (list jsstring))
         (results (emitted
            (_transform constants.OBD_OUTPUT_DELIMETER constants.MODE_01
               samples.one_pid samples.ticking
               (concat [bytes_of "410C"; bytes_of "1B56>"])
               new_OBDStreamParser)))
       ++ map (@untimed (list jsstring))
            (results (emitted
               (_transform constants.OBD_OUTPUT_DELIMETER constants.MODE_01
                  samples.one_pid samples.ticking
                  (concat [bytes_of "NO"; bytes_of "DATA>"])
                  new_OBDStreamParser))).
Proof.
assert (Hd : constants.OBD_OUTPUT_DELIMETER <> []) by discriminate.
split; [exact Hd|].
refine (proj1 (successive_outputs constants.OBD_OUTPUT_DELIMETER
                 constants.MODE_01 (list jsstring) samples.one_pid
                 samples.ticking
                 [bytes_of "410C"; bytes_of "1B56>"]
                 [bytes_of "NO"; bytes_of "DATA>"]
                 new_OBDStreamParser Hd _ _ _ _ eq_refl)).
- repeat constructor.
- repeat constructor.
- apply only_at_end_indexOf; [reflexivity | vm_compute; lia].
- apply only_at_end_indexOf; [reflexivity | vm_compute; lia].
Defined.

Lemma length_slice_2 {A} (n : nat) (arr : list A) :
  length (slice 2 (Z.of_nat n) arr) = Nat.min n (length arr) - 2.
Proof.
unfold slice.
destruct (Z.ltb_spec 2 0) as [Hc|_]; [lia|].
destruct (Z.ltb_spec (Z.of_nat n) 0) as [Hc|_]; [lia|].
rewrite length_firstn, length_skipn. lia.
Qed.

(** X9. The converter of a pid is called with as many arguments as there
    are byte groups from index 2 to the end of the response or to the byte
    count of the entry, whichever comes first; an entry whose byte count
    is 2 or less has its converter called without any argument, whatever
    the response holds. *)
Theorem converter_argument_count
  (JsValue : Type)
  (pids_getBy_pid : option jsstring -> option (PidInfo JsValue))
  (byteGroups : list jsstring) (pidInfo : PidInfo JsValue) :
  pids_getBy_pid (nth_error byteGroups 1) = Some pidInfo ->
  exists args,
    parseRealTime pids_getBy_pid byteGroups = convertBytes pidInfo args
    /\ length args = Nat.min (byteCount pidInfo) (length byteGroups) - 2
    /\ (byteCount pidInfo <= 2 -> args = []).
Proof.
intros H. exists (slice 2 (Z.of_nat (byteCount pidInfo)) byteGroups).
split; [unfold parseRealTime; now rewrite H|].
split; [apply length_slice_2|].
intros Hle. apply length_zero_iff_nil. rewrite length_slice_2. lia.
Qed.

Lemma converter_argument_count_witness :
  samples.one_pid
    (nth_error [lit "41"; lit "0C"; lit "1B"; lit "56"; lit "00"; lit "FF"] 1)
  = Some {| byteCount := 4;
            convertBytes := fun args =>
              match args with
              | [_; _] => Value (Some args)
              | _ => Failure (OtherVError (lit "bad payload"))
              end |}
  /\ exists args,
       parseRealTime samples.one_pid
         [lit "41"; lit "0C"; lit "1B"; lit "56"; lit "00"; lit "FF"]
       = Value (Some args)
       /\ length args = 2.
Proof.
split; [reflexivity|].
destruct (converter_argument_count (list jsstring) samples.one_pid
            [lit "41"; lit "0C"; lit "1B"; lit "56"; lit "00"; lit "FF"]
            _ eq_refl) as (args & Hrun & Hlen & _).
exists args. split; [|exact Hlen].
rewrite Hrun. cbn [convertBytes].
destruct args as [|a [|b [|c args]]]; try discriminate Hlen. reflexivity.
Defined.

(** X10. A hexadecimal response of one or two characters whose byte group
    is the mode marker has no pid: the table is asked for the entry of an
    undefined pid; without such an entry the error is the no-converter
    error of an undefined pid, and with one its converter is called
    without arguments. *)
Theorem marker_only_response
  (MODE_01 : jsstring) (JsValue : Type)
  (pids_getBy_pid : option jsstring -> option (PidInfo JsValue))
  (Date_now : nat -> Z) (str : jsstring) (this : OBDStreamParser) :
  isHex str = true ->
  length str <= 2 ->
  nth_error (runs_of_2 str) 0 = Some MODE_01 ->
  parseObdString MODE_01 pids_getBy_pid Date_now str this =
  (Normal
     match pids_getBy_pid None with
     | Some pidInfo =>
         match convertBytes pidInfo [] with
         | Value v =>
             {| ts := Date_now (clock this); value := v; raw := str;
                byteGroups := Some [str]; error := None |}
         | Failure e =>
             {| ts := Date_now (clock this); value := None; raw := str;
                byteGroups := Some [str]; error := Some e |}
         end
     | None =>
         {| ts := Date_now (clock this); value := None; raw := str;
            byteGroups := Some [str]; error := Some (NoConverter None) |}
     end,
   {| _buffer := _buffer this; clock := S (clock this) |}, []).
Proof.
intros H Hlen Hmode.
assert (Hne : str <> []) by (apply isHex_iff_digits in H; tauto).
assert (Hruns : runs_of_2 str = [str]).
{ destruct str as [|a [|b [|c t]]]; [congruence | reflexivity..|simpl in Hlen; lia]. }
assert (E : str_eqb (firstn 2 str) MODE_01 = true).
{ apply str_eqb_eq. rewrite (head_runs_of_2 str Hne) in Hmode. congruence. }
rewrite (parseObdString_hex MODE_01 JsValue pids_getBy_pid Date_now
           str this H), E, Nat.add_1_r, Hruns.
unfold parseRealTime. cbn [nth_error].
destruct (pids_getBy_pid None) as [pidInfo|]; [|reflexivity].
assert (Hargs : slice 2 (Z.of_nat (byteCount pidInfo)) [str] = []).
{ apply length_zero_iff_nil. rewrite length_slice_2. simpl. lia. }
now rewrite Hargs.
Qed.

Lemma marker_only_response_witness :
  isHex (lit "41") = true
  /\ length (lit "41") <= 2
  /\ parseObdString constants.MODE_01 samples.one_pid samples.ticking
       (lit "41") new_OBDStreamParser
     = (Normal {| ts := 0; value := None; raw := lit "41";
                  byteGroups := Some [lit "41"];
                  error := Some (NoConverter None) |},
        {| _buffer := []; clock := 1 |}, []).
Proof.
assert (Hlen : length (lit "41") <= 2) by (vm_compute; lia).
split; [reflexivity|]. split; [exact Hlen|].
exact (marker_only_response constants.MODE_01 (list jsstring)
         samples.one_pid samples.ticking (lit "41") new_OBDStreamParser
         eq_refl Hlen eq_refl).
Defined.

Lemma starts_with_refl (s : jsstring) : starts_with s s = true.
Proof. induction s as [|c s IH]; simpl; [reflexivity|]. now rewrite N.eqb_refl. Qed.

Lemma replace_str_self (pat : jsstring) : replace_str pat [] pat = [].
Proof.
destruct pat as [|c pat]; [reflexivity|].
rewrite replace_str_cons, starts_with_refl. simpl app.
apply skipn_all.
Qed.

Lemma without_line_feeds_plain (s : jsstring) :
  ~ In LF s -> without_line_feeds s = s.
Proof.
induction s as [|c s IH]; intros H; [reflexivity|].
unfold without_line_feeds in *. simpl.
destruct (N.eqb_spec c LF) as [->|_].
- exfalso. apply H. now left.
- simpl. f_equal. apply IH. intros Hin. apply H. now right.
Qed.

Lemma replace_pair_g_none (a b : char) (rep s : jsstring) :
  ~ In a s -> replace_pair_g a b rep s = s.
Proof.
intros H. rewrite <- (app_nil_r s) at 1.
rewrite (replace_pair_g_plain a b rep s [] H). apply app_nil_r.
Qed.

(** The commands of a frame that is one line. *)
Lemma extractOutputStrings_plain (delimiter frame : jsstring) :
  plain_line frame ->
  extractOutputStrings delimiter frame =
  filter truthy [normalised delimiter frame].
Proof.
intros (Hcr & Hlf & Hbs).
rewrite extractOutputStrings_steps, (without_line_feeds_plain frame Hlf).
rewrite (replace_pair_g_none _ _ _ _ Hbs).
now rewrite (split_char_plain CR frame Hcr).
Qed.

(** X11. A frame that is nothing but carriage returns and line feeds and
    then the prompt has no command. *)
Theorem bare_prompt_no_commands (delimiter breaks : jsstring) :
  plain_line delimiter ->
  Forall (fun c => c = CR \/ c = LF) breaks ->
  extractOutputStrings delimiter (breaks ++ delimiter) = [].
Proof.
intros Hd. induction 1 as [|c breaks [->| ->] _ IH].
- cbn [app]. rewrite (extractOutputStrings_plain delimiter delimiter Hd).
  unfold normalised. now rewrite replace_str_self.
- rewrite extractOutputStrings_steps in *.
  change (without_line_feeds ((CR :: breaks) ++ delimiter))
    with (CR :: without_line_feeds (breaks ++ delimiter)).
  rewrite replace_pair_g_miss by discriminate.
  change (split_char CR (CR :: ?s)) with ([] :: split_char CR s).
  cbn [map filter]. unfold normalised at 1.
  rewrite replace_str_nil. exact IH.
- rewrite extractOutputStrings_steps in *. exact IH.
Qed.

Lemma bare_prompt_no_commands_witness :
  plain_line constants.OBD_OUTPUT_DELIMETER
  /\ Forall (fun c => c = CR \/ c = LF) [CR; LF; CR]
  /\ extractOutputStrings constants.OBD_OUTPUT_DELIMETER
       ([CR; LF; CR] ++ constants.OBD_OUTPUT_DELIMETER) = [].
Proof.
assert (Hd : plain_line constants.OBD_OUTPUT_DELIMETER).
{ unfold plain_line. vm_compute. intuition discriminate. }
assert (Hb : Forall (fun c => c = CR \/ c = LF) [CR; LF; CR])
  by (repeat constructor; tauto).
split; [exact Hd|]. split; [exact Hb|].
exact (bare_prompt_no_commands constants.OBD_OUTPUT_DELIMETER
         [CR; LF; CR] Hd Hb).
Defined.

(** X12. The results of a write that brings the delimiter depend on the
    commands of the buffer only: two such writes, to any parsers, whose
    buffers have the same commands emit the same results, timestamps
    aside. *)
Theorem results_determined_by_commands
  (OBD_OUTPUT_DELIMETER MODE_01 : jsstring) (JsValue : Type)
  (pids_getBy_pid : option jsstring -> option (PidInfo JsValue))
  (Date_now : nat -> Z)
  (data1 data2 : list byte) (this1 this2 : OBDStreamParser) :
  contains OBD_OUTPUT_DELIMETER (_buffer this1 ++ Buffer_toString_utf8 data1) ->
  contains OBD_OUTPUT_DELIMETER (_buffer this2 ++ Buffer_toString_utf8 data2) ->
  extractOutputStrings OBD_OUTPUT_DELIMETER
    (_buffer this1 ++ Buffer_toString_utf8 data1)
  = extractOutputStrings OBD_OUTPUT_DELIMETER
      (_buffer this2 ++ Buffer_toString_utf8 data2) ->
  map (@untimed JsValue)
    (results (emitted
       (_transform OBD_OUTPUT_DELIMETER MODE_01 pids_getBy_pid Date_now
          data1 this1)))
  = map (@untimed JsValue)
      (results (emitted
         (_transform OBD_OUTPUT_DELIMETER MODE_01 pids_getBy_pid Date_now
            data2 this2))).
Proof.
intros H1 H2 Hsame. apply hasPrompt_iff in H1, H2.
destruct (_transform_complete OBD_OUTPUT_DELIMETER MODE_01 JsValue
            pids_getBy_pid Date_now data1 this1 H1) as (out1 & -> & Hout1 & _).
destruct (_transform_complete OBD_OUTPUT_DELIMETER MODE_01 JsValue
            pids_getBy_pid Date_now data2 this2 H2) as (out2 & -> & Hout2 & _).
unfold emitted at 1 2. cbn [snd results]. rewrite Hout1, Hout2, Hsame.
apply each_emit_parsed_untimed.
Qed.

Lemma results_determined_by_commands_witness :
  map (@untimed (list jsstring))
    (results (emitted
       (_transform constants.OBD_OUTPUT_DELIMETER constants.MODE_01
          samples.one_pid samples.ticking
          (bytes_of "0C 1B 56" ++ [10; 13; 13; 62]%N)
          {| _buffer := lit "41 "; clock := 3 |})))
  = map (@untimed (list jsstring))
      (results (emitted
         (_transform constants.OBD_OUTPUT_DELIMETER constants.MODE_01
            samples.one_pid samples.ticking
            (bytes_of "410C1B56>") new_OBDStreamParser))).
Proof.
apply (results_determined_by_commands constants.OBD_OUTPUT_DELIMETER
         constants.MODE_01 (list jsstring) samples.one_pid samples.ticking
         (bytes_of "0C 1B 56" ++ [10; 13; 13; 62]%N) (bytes_of "410C1B56>")
         {| _buffer := lit "41 "; clock := 3 |} new_OBDStreamParser).
- apply hasPrompt_iff. reflexivity.
- apply hasPrompt_iff. reflexivity.
- reflexivity.
Defined.

(** X13. The delimiter is taken out of the line it stands in, and what
    stands before it and what stands behind it become one command: text
    that follows the prompt in the same buffer is not kept for the next
    output. *)
Theorem text_around_delimiter_joined (delimiter before behind : jsstring) :
  plain_line (before ++ delimiter ++ behind) ->
  (forall j, j < length before ->
             ~ occurs_at delimiter (before ++ delimiter ++ behind) j) ->
  extractOutputStrings delimiter (before ++ delimiter ++ behind) =
  filter truthy [trim (despaced (before ++ behind))].
Proof.
intros Hplain Hfirst.
rewrite (extractOutputStrings_plain delimiter _ Hplain). unfold normalised.
assert (Hocc : occurs_at delimiter (before ++ delimiter ++ behind)
                 (length before)) by now exists before, behind.
rewrite (replace_str_first delimiter _ (length before) Hocc Hfirst).
rewrite firstn_app, firstn_all, Nat.sub_diag, firstn_0, app_nil_r.
rewrite skipn_app, skipn_all2 by lia.
replace (length before + length delimiter - length before)
  with (length delimiter) by lia.
rewrite skipn_app, skipn_all, Nat.sub_diag, skipn_0. reflexivity.
Qed.

Lemma text_around_delimiter_joined_witness :
  plain_line (lit "41" ++ constants.OBD_OUTPUT_DELIMETER ++ lit "05")
  /\ extractOutputStrings constants.OBD_OUTPUT_DELIMETER
       (lit "41" ++ constants.OBD_OUTPUT_DELIMETER ++ lit "05")
     = [lit "4105"].
Proof.
assert (Hplain : plain_line (lit "41" ++ constants.OBD_OUTPUT_DELIMETER
                             ++ lit "05")).
{ unfold plain_line. vm_compute. intuition discriminate. }
split; [exact Hplain|].
apply (text_around_delimiter_joined constants.OBD_OUTPUT_DELIMETER
         (lit "41") (lit "05") Hplain).
intros j Hj. apply (proj2 (indexOf_Some constants.OBD_OUTPUT_DELIMETER
  (lit "41" ++ constants.OBD_OUTPUT_DELIMETER ++ lit "05") 2 eq_refl)).
exact Hj.
Defined.

Lemma replace_pair_g_cons2 (a b : char) (rep : jsstring)
  (x y : char) (t : jsstring) :
  replace_pair_g a b rep (x :: y :: t) =
  if N.eqb x a && N.eqb y b then rep ++ replace_pair_g a b rep t
  else x :: replace_pair_g a b rep (y :: t).
Proof. reflexivity. Qed.

Lemma replace_pair_g_separator (sep : separator) (a b : jsstring) :
  replace_pair_g BACKSLASH LOWER_R [CR] (a ++ separator_text sep ++ b) =
  replace_pair_g BACKSLASH LOWER_R [CR] a
  ++ CR :: replace_pair_g BACKSLASH LOWER_R [CR] b.
Proof.
assert (H0 : replace_pair_g BACKSLASH LOWER_R [CR] (separator_text sep ++ b)
             = CR :: replace_pair_g BACKSLASH LOWER_R [CR] b).
{ destruct sep; cbn [separator_text app].
  - apply replace_pair_g_miss. discriminate.
  - apply replace_pair_g_hit. }
assert (H : (replace_pair_g BACKSLASH LOWER_R [CR]
               (a ++ separator_text sep ++ b) =
             replace_pair_g BACKSLASH LOWER_R [CR] a
             ++ CR :: replace_pair_g BACKSLASH LOWER_R [CR] b)
            /\ forall c,
               replace_pair_g BACKSLASH LOWER_R [CR]
                 ((c :: a) ++ separator_text sep ++ b) =
               replace_pair_g BACKSLASH LOWER_R [CR] (c :: a)
               ++ CR :: replace_pair_g BACKSLASH LOWER_R [CR] b); [|tauto].
induction a as [|d a [IH1 IH2]]; split.
- exact H0.
- intros c. cbn [app]. rewrite <- H0.
  destruct sep; cbn [separator_text app]; rewrite replace_pair_g_cons2;
    rewrite andb_false_r; reflexivity.
- apply IH2.
- intros c. cbn [app]. rewrite !replace_pair_g_cons2.
  destruct (N.eqb c BACKSLASH && N.eqb d LOWER_R).
  + rewrite IH1. now rewrite <- app_assoc.
  + cbn [app] in IH2. now rewrite (IH2 d).
Qed.

Lemma split_char_cons (c : char) (s : jsstring) :
  exists h r, split_char c s = h :: r.
Proof.
destruct s as [|x s]; simpl; [now eexists _, _|].
destruct (N.eqb x c); [now eexists _, _|].
destruct (split_char c s); now eexists _, _.
Qed.

Lemma split_char_app_sep (c : char) (s t : jsstring) :
  split_char c (s ++ c :: t) = split_char c s ++ split_char c t.
Proof.
induction s as [|x s IH].
- simpl. now rewrite N.eqb_refl.
- cbn [app]. simpl split_char at 1 2. destruct (N.eqb x c).
  + now rewrite IH.
  + rewrite IH. destruct (split_char_cons c s) as (h & r & ->). reflexivity.
Qed.

Lemma without_line_feeds_app (a b : jsstring) :
  without_line_feeds (a ++ b) = without_line_feeds a ++ without_line_feeds b.
Proof. apply filter_app. Qed.

Lemma extractOutputStrings_separator
  (delimiter : jsstring) (sep : separator) (a b : jsstring) :
  extractOutputStrings delimiter (a ++ separator_text sep ++ b) =
  extractOutputStrings delimiter a ++ extractOutputStrings delimiter b.
Proof.
rewrite !extractOutputStrings_steps, !without_line_feeds_app.
assert (Hsep : without_line_feeds (separator_text sep) = separator_text sep)
  by (destruct sep; reflexivity).
rewrite Hsep, replace_pair_g_separator, split_char_app_sep.
now rewrite map_app, filter_app.
Qed.

(** X14. A carriage return, and a backslash followed by r, cut a frame in
    two whatever stands around them: the commands of the frame are the
    commands of what stands before followed by the commands of what stands
    behind.  So the commands of a frame of lines are the commands of its
    lines, line after line. *)
Theorem commands_line_by_line
  (delimiter first : jsstring) (more : list (separator * jsstring)) :
  extractOutputStrings delimiter (frame_of first more) =
  flat_map (extractOutputStrings delimiter) (lines_of first more).
Proof.
unfold frame_of, lines_of. revert first.
induction more as [|[sep l] more IH]; intros first.
- cbn. now rewrite !app_nil_r.
- cbn [flat_map map fst snd]. rewrite <- app_assoc.
  rewrite extractOutputStrings_separator. f_equal. apply IH.
Qed.

(* ================================================================== *)
(** ** FrameSplitter: the delimiter *)
(* ================================================================== *)

Lemma In_trim_start_keep (s : jsstring) (x : char) :
  In x s -> is_trim_space x = false -> In x (trim_start s).
Proof.
intros Hin Hx. destruct (trim_start_suffix s) as (pre & Hs & Hpre).
rewrite Hs in Hin. apply in_app_or in Hin. destruct Hin as [Hin|Hin]; [|exact Hin].
rewrite Forall_forall in Hpre. specialize (Hpre x Hin). congruence.
Qed.

(** [trim] keeps every character that is not white space. *)
Lemma In_trim_keep (s : jsstring) (x : char) :
  In x s -> is_trim_space x = false -> In x (trim s).
Proof.
intros Hin Hx. unfold trim, trim_end.
rewrite <- in_rev. apply In_trim_start_keep; [|exact Hx].
rewrite <- in_rev. now apply In_trim_start_keep.
Qed.

Lemma occurs_at_char (c : char) (s : jsstring) (j : nat) :
  occurs_at [c] s j -> nth_error s j = Some c.
Proof.
intros (pre & post & -> & <-).
rewrite nth_error_app2 by lia. now rewrite Nat.sub_diag.
Qed.

(** The command of a line that holds a one-character delimiter: the line
    without the first delimiter. *)
Lemma extractOutputStrings_first_delimiter
  (c : char) (before behind : jsstring) :
  plain_line (before ++ c :: behind) ->
  ~ In c before ->
  extractOutputStrings [c] (before ++ c :: behind) =
  filter truthy [trim (despaced (before ++ behind))].
Proof.
intros Hplain Hbefore.
rewrite (extractOutputStrings_plain [c] _ Hplain). unfold normalised.
assert (Hocc : occurs_at [c] (before ++ c :: behind) (length before))
  by now exists before, behind.
assert (Hfirst : forall j, j < length before ->
                   ~ occurs_at [c] (before ++ c :: behind) j).
{ intros j Hj Hc. apply occurs_at_char in Hc.
  rewrite nth_error_app1 in Hc by exact Hj.
  apply Hbefore. eapply nth_error_In. exact Hc. }
rewrite (replace_str_first [c] _ (length before) Hocc Hfirst).
rewrite firstn_app, firstn_all, Nat.sub_diag, firstn_0, app_nil_r.
rewrite skipn_app, skipn_all2 by (simpl; lia).
replace (length before + length [c] - length before) with 1 by (simpl; lia).
reflexivity.
Qed.

(** C9. The splitter takes out of each segment the first occurrence of the
    delimiter, the one [indexOf] finds, and nothing else: the commands of
    a frame are its segments, each cut at that occurrence only, then
    without spaces and trimmed, the empty ones dropped.  So for a
    delimiter of one character that is not white space, a line that holds
    the delimiter again behind its first occurrence gives a command that
    still holds the delimiter; the frame of the prompt twice is such a
    frame. *)
Theorem delimiter_stripped_once :
  (forall delimiter frame : jsstring,
     extractOutputStrings delimiter frame =
     filter truthy
       (map (fun segment =>
               trim (despaced
                       match indexOf segment delimiter with
                       | Some i =>
                           firstn i segment
                           ++ skipn (i + length delimiter) segment
                       | None => segment
                       end))
          (split_char CR
             (replace_pair_g BACKSLASH LOWER_R [CR]
                (without_line_feeds frame)))))
  /\ (forall (delimiter segment : jsstring) (i : nat),
        indexOf segment delimiter = Some i ->
        occurs_at delimiter segment i
        /\ forall j, j < i -> ~ occurs_at delimiter segment j)
  /\ (forall (c : char) (before behind : jsstring),
        is_trim_space c = false ->
        plain_line (before ++ c :: behind) ->
        ~ In c before ->
        In c behind ->
        extractOutputStrings [c] (before ++ c :: behind)
        = [trim (despaced (before ++ behind))]
        /\ In c (trim (despaced (before ++ behind))))
  /\ (exists frame command,
        extractOutputStrings constants.OBD_OUTPUT_DELIMETER frame = [command]
        /\ contains constants.OBD_OUTPUT_DELIMETER command).
Proof.
split; [|split; [|split]].
- intros delimiter frame. rewrite extractOutputStrings_steps.
  f_equal. apply map_ext. intros segment. unfold normalised. do 2 f_equal.
  destruct (indexOf segment delimiter) as [i|] eqn:E.
  + destruct (indexOf_Some _ _ _ E) as [Hocc Hmin].
    now apply replace_str_first.
  + apply replace_str_absent. intros [j Hj].
    exact (indexOf_None _ _ E j Hj).
- intros delimiter segment i. apply indexOf_Some.
- intros c before behind Hc Hplain Hbefore Hbehind.
  assert (Hin : In c (trim (despaced (before ++ behind)))).
  { apply In_trim_keep; [|exact Hc]. apply filter_In. split.
    - apply in_or_app. now right.
    - destruct (N.eqb_spec c SPACE) as [->|_]; [discriminate Hc | reflexivity]. }
  split; [|exact Hin].
  rewrite (extractOutputStrings_first_delimiter c before behind Hplain Hbefore).
  destruct (trim (despaced (before ++ behind))); [contradiction | reflexivity].
- exists (lit ">>"), (lit ">"). split; [reflexivity|].
  exists 0. now apply occurs_at_0.
Qed.

Lemma delimiter_stripped_once_witness :
  is_trim_space 62%N = false
  /\ plain_line (lit "41" ++ 62%N :: lit "05>")
  /\ ~ In 62%N (lit "41")
  /\ In 62%N (lit "05>")
  /\ extractOutputStrings [62%N] (lit "41" ++ 62%N :: lit "05>")
     = [lit "4105>"]
  /\ In 62%N (lit "4105>").
Proof.
assert (Hplain : plain_line (lit "41" ++ 62%N :: lit "05>")).
{ unfold plain_line. vm_compute. intuition discriminate. }
assert (Hbefore : ~ In 62%N (lit "41")).
{ vm_compute. intuition discriminate. }
assert (Hbehind : In 62%N (lit "05>")) by (vm_compute; tauto).
split; [reflexivity|]. split; [exact Hplain|].
split; [exact Hbefore|]. split; [exact Hbehind|].
exact (proj1 (proj2 (proj2 delimiter_stripped_once))
         62%N (lit "41") (lit "05>") eq_refl Hplain Hbefore Hbehind).
Defined.
